(** * actors.js: boxes, tile maps and actors

    A shallow embedding of [js/actors.js].  JavaScript numbers that carry
    coordinates, sizes, speeds and elapsed time are modelled as exact
    rationals ([Q]); counters and millisecond clock values are integers
    ([Z]).  Mutation of [this] is explicit state passing: a method returns
    the new object next to its JavaScript return value.  Drawing, event
    binding and sprite animation do not touch the modelled fields and are
    left out. *)

From Stdlib Require Import QArith Qround Qabs ZArith String List Bool Lia Lqa.
Import ListNotations.

Local Open Scope Q_scope.

(** ** Numbers *)

Definition Q_ge (a b : Q) : bool := Qle_bool b a.
Definition Q_lt (a b : Q) : bool := negb (Qle_bool b a).
Definition Q_gt (a b : Q) : bool := negb (Qle_bool a b).
Definition Q_neq (a b : Q) : bool := negb (Qeq_bool a b).
Definition Math_min (a b : Q) : Q := if Qle_bool a b then a else b.
Definition Math_max (a b : Q) : Q := if Qle_bool a b then b else a.

(** JavaScript's [a || b] on a possibly missing number: [undefined] and
    [0] are falsy. *)
Definition or_default (v : option Q) (d : Q) : Q :=
  match v with
  | Some q => if Qeq_bool q 0 then d else q
  | None => d
  end.

Definition Math_floor (q : Q) : Z := Qfloor q.
Definition Math_ceil (q : Q) : Z := Qceiling q.

(** JavaScript's [q | 0]: the integer part of [q], wrapped to 32 signed
    bits. *)
Definition integer_part (q : Q) : Z :=
  if Qle_bool 0 q then Qfloor q else Qceiling q.
Definition ToInt32 (q : Q) : Z :=
  ((integer_part q + 2 ^ 31) mod 2 ^ 32 - 2 ^ 31)%Z.

(** ** Ambient globals

    [world], [canvas], [keys], [mouse] and [App] are globals of the page.
    They are read, never written, by the code below, so they travel as one
    environment record.  [App.Utils.anyIn] and [App.Utils.almostEqual] are
    defined outside this file; they are fields of the environment and the
    results hold for whatever they compute. *)

Module Keys.
Record t := mk {
  up : list string;
  down : list string;
  left : list string;
  right : list string }.
End Keys.

Record World := mkWorld {
  world_width : Q;
  world_height : Q;
  xOffset : Q;
  yOffset : Q }.

Record Env := mkEnv {
  world : World;
  canvas_width : Q;
  canvas_height : Q;
  lastDelta : Q;                                (* App.timer.lastDelta *)
  keys : option Keys.t;                         (* None: [keys] was deleted *)
  mouse_x : Q;                                  (* mouse.coords.x *)
  mouse_y : Q;                                  (* mouse.coords.y *)
  anyIn : list string -> list string -> bool;   (* App.Utils.anyIn *)
  almostEqual : Q -> Q -> Q -> bool }.          (* App.Utils.almostEqual *)

(** Modelled from the spec: [App.Utils.almostEqual] is not part of this
    file.  The spec describes its use as "within a small epsilon (1 unit)";
    this instance reads it as [|a - b| <= e] and is used only to evaluate
    the code on concrete inputs. *)
Definition almostEqual_within (a b e : Q) : bool := Qle_bool (Qabs (a - b)) e.

(** Modelled from the spec: the other reading of "within epsilon",
    [|a - b| < e], for the same use. *)
Definition almostEqual_strict (a b e : Q) : bool := Q_lt (Qabs (a - b)) e.

(** Modelled from the spec: [App.Utils.anyIn] is not part of this file.  It
    is called as [anyIn(keys.left, direction)] to ask whether some key of the
    first array occurs in the second; used only to evaluate the code on
    concrete inputs. *)
Definition anyIn_some (ks direction : list string) : bool :=
  existsb (fun k => existsb (String.eqb k) direction) ks.

(** ** Box *)

Module Box.

Record t := mk { x : Q; y : Q; width : Q; height : Q }.

Definition DEFAULT_WIDTH : Q := 80.
Definition DEFAULT_HEIGHT : Q := 80.

Definition init (env : Env) (ox oy ow oh : option Q) : t :=
  mk (or_default ox (inject_Z (Math_floor ((world_width (world env) - DEFAULT_WIDTH) / 2))))
     (or_default oy (inject_Z (Math_floor ((world_height (world env) - DEFAULT_HEIGHT) / 2))))
     (or_default ow DEFAULT_WIDTH)
     (or_default oh DEFAULT_HEIGHT).

Definition xC (b : t) : Q := x b + width b / 2.
Definition yC (b : t) : Q := y b + height b / 2.

Definition overlapsX (this otherBox : t) : bool :=
  Q_ge (x this + width this) (x otherBox) &&
  Q_ge (x otherBox + width otherBox) (x this).

Definition overlapsY (this otherBox : t) : bool :=
  Q_ge (y this + height this) (y otherBox) &&
  Q_ge (y otherBox + height otherBox) (y this).

Definition overlaps (this otherBox : t) : bool :=
  overlapsX this otherBox && overlapsY this otherBox.

Definition set_x (b : t) (v : Q) : t := mk v (y b) (width b) (height b).
Definition set_y (b : t) (v : Q) : t := mk (x b) v (width b) (height b).

End Box.

Abbreviation Box := Box.t.

(** The JavaScript values found in a grid or a collection: a missing entry
    (an array hole reads as [undefined]), [null], or a Box. *)
Inductive value :=
| Undefined
| Null
| BoxV (b : Box).

(** ** Collection *)

Module Collection.

Record t := mk { items : list Box }.

Definition getAll (c : t) : list Box := items c.
Definition count (c : t) : nat := length (items c).
Definition add (c : t) (item : Box) : t := mk (items c ++ [item]).
Definition removeAll (c : t) : t := mk [].

Definition overlaps (c : t) (box : Box) : bool :=
  existsb (fun item => Box.overlaps item box) (items c).

Definition concat (c : t) (more : list Box) : t := mk (items c ++ more).
Definition combine (c otherCollection : t) : t :=
  mk (items c ++ items otherCollection).

(** [removeLast]: [pop()] returns the last item, or [undefined] ([None])
    on an empty array. *)
Definition removeLast (c : t) : option Box * t :=
  match rev (items c) with
  | [] => (None, c)
  | last :: before => (Some last, mk (rev before))
  end.

(** [items.splice(i, 1)]. *)
Definition splice (l : list Box) (i : nat) : list Box :=
  firstn i l ++ skipn (S i) l.

(** The loop of [forEach(f)] for a function [f], with [i] running from
    [n - 1] down to 0; [f] is a predicate on the item.  Next to the items
    the model keeps the items [f] was called on, in the order of the
    calls. *)
Fixpoint forEach_from (f : Box -> bool) (n : nat) (l visited : list Box)
    : list Box * list Box :=
  match n with
  | O => (l, visited)
  | S i =>
      match nth_error l i with
      | Some item =>
          if f item then forEach_from f i (splice l i) (visited ++ [item])
          else forEach_from f i l (visited ++ [item])
      | None => forEach_from f i l visited
      end
  end.

Definition forEach (f : Box -> bool) (c : t) : t * list Box :=
  let '(l, visited) := forEach_from f (length (items c)) (items c) [] in
  (mk l, visited).

End Collection.

(** ** World

    The constructor reads the canvas size and the canvas attributes
    [data-worldwidth] and [data-worldheight] (here the result of
    [parseInt], [None] when it is not a number).  The methods that move the
    viewport return the new World; the translation of the drawing context
    is left out. *)

Module WorldMethods.

Definition new (canvasW canvasH : Q) (w h attrW attrH : option Q) : World :=
  let width := or_default w (or_default attrW canvasW) in
  let height := or_default h (or_default attrH canvasH) in
  mkWorld width height ((width - canvasW) / 2) ((height - canvasH) / 2).

Definition getOffsets (this : World) : Q * Q := (xOffset this, yOffset this).

Definition resize (this : World) (newWidth newHeight : Q) : World :=
  let deltaX := (newWidth - world_width this) / 2 in
  let deltaY := (newHeight - world_height this) / 2 in
  mkWorld newWidth newHeight (xOffset this + deltaX) (yOffset this + deltaY).

Definition centerViewportAround (canvasW canvasH : Q) (this : World) (x y : Q) : World :=
  let newXOffset :=
    ToInt32 (Math_min (world_width this - canvasW) (Math_max 0 (x - canvasW / 2))) in
  let newYOffset :=
    ToInt32 (Math_min (world_height this - canvasH) (Math_max 0 (y - canvasH / 2))) in
  mkWorld (world_width this) (world_height this)
          (inject_Z newXOffset) (inject_Z newYOffset).

Definition isInView (canvasW canvasH : Q) (this : World) (box : Box) (partial : bool)
    : bool :=
  if partial then
    Q_gt (Box.x box + Box.width box) (xOffset this) &&
    Q_lt (Box.x box) (xOffset this + canvasW) &&
    Q_gt (Box.y box + Box.height box) (yOffset this) &&
    Q_lt (Box.y box) (yOffset this + canvasH)
  else
    Q_gt (Box.x box) (xOffset this) &&
    Q_lt (Box.x box + Box.width box) (xOffset this + canvasW) &&
    Q_gt (Box.y box) (yOffset this) &&
    Q_lt (Box.y box + Box.height box) (yOffset this + canvasH).

(** [isInWorld] reads the global [world], not [this]. *)
Definition isInWorld (world : World) (box : Box) (partial : bool) : bool :=
  if partial then
    Q_ge (Box.x box + Box.width box) 0 &&
    Qle_bool (Box.x box) (world_width world) &&
    Q_ge (Box.y box + Box.height box) 0 &&
    Qle_bool (Box.y box) (world_height world)
  else
    Q_ge (Box.x box) 0 &&
    Qle_bool (Box.x box + Box.width box) (world_width world) &&
    Q_ge (Box.y box) 0 &&
    Qle_bool (Box.y box + Box.height box) (world_height world).

End WorldMethods.

(** ** TileMap

    The constructor's parameter [grid] stays visible to the methods
    declared inside it, next to the property [this.grid].  Both name 2-D
    arrays, which are objects: the model keeps the arrays in a store and
    the two names as references into it.  Image tiles ([ImageWrapper]) are
    not modelled; the tile templates are [null], a missing value, or the
    [Box] class. *)

Module TileMap.

Definition grid := list (list value).

Record t := mk {
  arrays : list grid;     (* the 2-D arrays allocated so far *)
  grid_var : nat;         (* the constructor's variable [grid] *)
  this_grid : nat;        (* the property [this.grid] *)
  cellSize : Q * Q;       (* options.cellSize *)
  startCoords : Q * Q }.  (* options.startCoords *)

Definition deref (tm : t) (r : nat) : grid := nth r (arrays tm) [].

(** [a[i] = v]: replaces the entry in range. *)
Fixpoint list_update {A : Type} (l : list A) (i : nat) (v : A) : list A :=
  match l, i with
  | [], _ => []
  | _ :: tl, O => v :: tl
  | hd :: tl, S i' => hd :: list_update tl i' v
  end.

(** [row[j] = v] on a JavaScript array: past the end the array grows and
    the skipped entries are holes. *)
Fixpoint array_set (row : list value) (j : nat) (v : value) : list value :=
  match j, row with
  | O, [] => [v]
  | O, _ :: tl => v :: tl
  | S j', [] => Undefined :: array_set [] j' v
  | S j', hd :: tl => hd :: array_set tl j' v
  end.

(** [g[i][j]] for a row [i] that exists; a column past the row's end
    reads as [undefined]. *)
Definition read (g : grid) (i j : nat) : value :=
  nth j (nth i g []) Undefined.

(** Templates of the constructor's [grid] argument. *)
Inductive source :=
| SNull
| SMissing
| SBoxClass
| SUnsupported.

Definition init_cell (env : Env) (sx sy cw ch : Q) (i j : nat) (o : source) : value :=
  match o with
  | SBoxClass =>
      let x := sx + inject_Z (Z.of_nat j) * cw in
      let y := sy + inject_Z (Z.of_nat i) * ch in
      BoxV (Box.init env (Some x) (Some y) (Some cw) (Some ch))
  | _ => Null
  end.

Fixpoint init_row (env : Env) (sx sy cw ch : Q) (i j : nat) (r : list source) : list value :=
  match r with
  | [] => []
  | o :: r' => init_cell env sx sy cw ch i j o :: init_row env sx sy cw ch i (S j) r'
  end.

Fixpoint init_rows (env : Env) (sx sy cw ch : Q) (i : nat) (g : list (list source)) : grid :=
  match g with
  | [] => []
  | r :: g' => init_row env sx sy cw ch i O r :: init_rows env sx sy cw ch (S i) g'
  end.

(** [new TileMap(grid, undefined, {cellSize, gridSize})] for a grid given
    as a 2-D array. *)
Definition new (env : Env) (g : list (list source))
    (optCellSize : option (Q * Q)) (optGridSize : option (nat * nat)) : t :=
  let cs := match optCellSize with
            | Some c => c
            | None => (Box.DEFAULT_WIDTH, Box.DEFAULT_HEIGHT)
            end in
  let cw := fst cs in
  let ch := snd cs in
  let sx := 0 in
  let sy := world_height (world env) - ch * inject_Z (Z.of_nat (length g)) in
  let g1 := match optGridSize with
            | Some (n, m) => repeat (repeat SNull m) n
            | None => g
            end in
  mk [init_rows env sx sy cw ch O g1] O O cs (sx, sy).

Definition getRows (tm : t) : nat := length (deref tm (this_grid tm)).

Definition getCols (tm : t) : nat :=
  match deref tm (this_grid tm) with
  | [] => O
  | r :: _ => length r
  end.

Definition getCell (tm : t) (row col : nat) : value :=
  match nth_error (deref tm (this_grid tm)) row with
  | Some r => nth col r Undefined
  | None => Undefined
  end.

Definition write_this (tm : t) (row col : nat) (obj : value) : t :=
  let g := deref tm (this_grid tm) in
  mk (list_update (arrays tm) (this_grid tm)
        (list_update g row (array_set (nth row g []) col obj)))
     (grid_var tm) (this_grid tm) (cellSize tm) (startCoords tm).

Definition setCell (tm : t) (row col : nat) (obj : value) : t :=
  match nth_error (deref tm (this_grid tm)) row with
  | Some r =>
      match nth col r Undefined with
      | Undefined => tm
      | _ => write_this tm row col obj
      end
  | None => tm
  end.

Definition clearCell (tm : t) (row col : nat) : t := setCell tm row col Null.

Definition non_null (v : value) : list value :=
  match v with
  | Null => []
  | _ => [v]
  end.

Definition getAll (tm : t) : list value :=
  let g := deref tm (this_grid tm) in
  let w := getRows tm in
  let h := getCols tm in
  flat_map (fun i => flat_map (fun j => non_null (read g i j)) (seq 0 h)) (seq 0 w).

(** The inner loop of [clearAll]: [grid[i][j] = null] for [j < h]. *)
Definition null_row (h : nat) (r : list value) : list value :=
  fold_left (fun r j => array_set r j Null) (seq 0 h) r.

(** The outer loop of [clearAll] on the array named by [grid]; [None] is
    the TypeError of [grid[i][j] = null] when [grid[i]] is missing. *)
Fixpoint null_rows (w h : nat) (g : grid) : option grid :=
  match w, g with
  | O, _ => Some g
  | S _, [] => None
  | S w', r :: g' =>
      match null_rows w' h g' with
      | Some g'' => Some (null_row h r :: g'')
      | None => None
      end
  end.

(** [clearAll]: [this.grid] becomes a fresh array of [w] fresh rows
    [new Array(h)], whose entries are holes; the assignments of [null] go
    to the array named by [grid]. *)
Definition clearAll (tm : t) : option t :=
  let w := getRows tm in
  let h := getCols tm in
  let fresh := repeat (repeat Undefined h) w in
  let arrays1 := arrays tm ++ [fresh] in
  let this1 := length (arrays tm) in
  match null_rows w h (nth (grid_var tm) arrays1 []) with
  | Some g' =>
      Some (mk (list_update arrays1 (grid_var tm) g')
               (grid_var tm) this1 (cellSize tm) (startCoords tm))
  | None => None
  end.

(** One step of [forEach(f, includeNull)], at row [i] and column [j]; [f]
    is a predicate on the tile and its place.  A Box that [f] selects is
    destroyed (a Box's [destroy] does nothing) and its cell cleared;
    [None] is the TypeError of reading [destroy] from [null] or
    [undefined]. *)
Definition forEach_cell (f : value -> nat -> nat -> bool) (includeNull : bool)
    (tm : t) (ij : nat * nat) : option t :=
  let '(i, j) := ij in
  let v := read (deref tm (this_grid tm)) i j in
  let not_null := match v with Null => false | _ => true end in
  if not_null || includeNull then
    if f v i j then
      match v with
      | BoxV _ => Some (clearCell tm i j)
      | _ => None
      end
    else Some tm
  else Some tm.

Fixpoint forEach_cells (f : value -> nat -> nat -> bool) (includeNull : bool)
    (ijs : list (nat * nat)) (tm : t) : option t :=
  match ijs with
  | [] => Some tm
  | ij :: tl =>
      match forEach_cell f includeNull tm ij with
      | Some tm' => forEach_cells f includeNull tl tm'
      | None => None
      end
  end.

(** [forEach]: every row [i < w] and column [j < h], row by row, with [w]
    and [h] read once at the start. *)
Definition forEach (f : value -> nat -> nat -> bool) (includeNull : bool) (tm : t)
    : option t :=
  forEach_cells f includeNull (list_prod (seq 0 (getRows tm)) (seq 0 (getCols tm))) tm.

(** [_getCellCoordsInRect]: startCol, startRow, endCol, endRow.  Missing
    arguments default to the viewport. *)
Definition _getCellCoordsInRect (env : Env) (tm : t) (owx owy otw oth : option Q)
    : Z * Z * Z * Z :=
  let wx := match owx with Some v => v | None => xOffset (world env) end in
  let wy := match owy with Some v => v | None => yOffset (world env) end in
  let tw := match otw with Some v => v | None => canvas_width env end in
  let th := match oth with Some v => v | None => canvas_height env end in
  let x := fst (startCoords tm) in
  let y := snd (startCoords tm) in
  let cw := fst (cellSize tm) in
  let cy := snd (cellSize tm) in
  let sx := (wx - x) / cw in
  let sy := (wy - y) / cy in
  let sxe := (wx + tw - x) / cw in
  let sye := (y - wy + th) / cy in
  (Math_floor sx, Math_floor sy, Math_ceil sxe, Math_ceil sye).

(** The index range of [for (i = lo; i < hi; i++)] for [0 <= lo]. *)
Definition range (lo hi : Z) : list nat :=
  seq (Z.to_nat lo) (Z.to_nat (hi - lo)).

Definition clamp (n : nat) (r : Z) : Z := Z.min (Z.of_nat n) (Z.max 0 r).

Definition getCellsInRect (env : Env) (tm : t) (x y w h : option Q) : list value :=
  let '(r0, r1, r2, r3) := _getCellCoordsInRect env tm x y w h in
  let startRow := clamp (getRows tm) r1 in
  let endRow := clamp (getRows tm) r3 in
  let startCol := clamp (getCols tm) r0 in
  let endCol := clamp (getCols tm) r2 in
  let g := deref tm (this_grid tm) in
  flat_map (fun i => flat_map (fun j => non_null (read g i j)) (range startCol endCol))
           (range startRow endRow).

End TileMap.

(** ** Actor *)

Module Actor.

Record jumpDir := mkJumpDir { jd_right : bool; jd_left : bool }.

(** The class-level settings of an Actor; a subclass overrides them. *)
Record settings := mkSettings {
  MOVEAMOUNT : Q;
  GRAVITY : bool;
  G_CONST : Q;
  JUMP_VEL : Q;
  JUMP_DELAY : Z;
  AIR_CONTROL : Q;
  JUMP_RELEASE : bool;
  MULTI_JUMP : Z;
  CONTINUOUS_MOVEMENT : bool;
  STAY_IN_WORLD : bool }.

Definition default_settings : settings :=
  mkSettings 400 false 1500 800 250 (1 # 4) false 0 false true.

Record t := mk {
  box : Box;
  cfg : settings;
  speed : Q;
  lastJump : Z;
  lastDirection : list string;
  lastLooked : list string;
  jumpDirection : jumpDir;
  jumpKeyDown : bool;
  numJumps : Z;
  inAir : bool;
  fallLeft : option bool;
  isBeingDragged : bool }.

Coercion box : t >-> Box.t.
Coercion cfg : t >-> settings.

Definition x (a : t) : Q := Box.x a.
Definition y (a : t) : Q := Box.y a.
Definition width (a : t) : Q := Box.width a.
Definition height (a : t) : Q := Box.height a.

Definition set_box (a : t) (v : Box) : t :=
  mk v (cfg a) (speed a) (lastJump a) (lastDirection a) (lastLooked a)
     (jumpDirection a) (jumpKeyDown a) (numJumps a) (inAir a) (fallLeft a)
     (isBeingDragged a).
Definition set_x (a : t) (v : Q) : t := set_box a (Box.set_x a v).
Definition set_y (a : t) (v : Q) : t := set_box a (Box.set_y a v).
Definition set_speed (a : t) (v : Q) : t :=
  mk (box a) (cfg a) v (lastJump a) (lastDirection a) (lastLooked a)
     (jumpDirection a) (jumpKeyDown a) (numJumps a) (inAir a) (fallLeft a)
     (isBeingDragged a).
Definition set_lastJump (a : t) (v : Z) : t :=
  mk (box a) (cfg a) (speed a) v (lastDirection a) (lastLooked a)
     (jumpDirection a) (jumpKeyDown a) (numJumps a) (inAir a) (fallLeft a)
     (isBeingDragged a).
Definition set_lastDirection (a : t) (v : list string) : t :=
  mk (box a) (cfg a) (speed a) (lastJump a) v (lastLooked a)
     (jumpDirection a) (jumpKeyDown a) (numJumps a) (inAir a) (fallLeft a)
     (isBeingDragged a).
Definition set_lastLooked (a : t) (v : list string) : t :=
  mk (box a) (cfg a) (speed a) (lastJump a) (lastDirection a) v
     (jumpDirection a) (jumpKeyDown a) (numJumps a) (inAir a) (fallLeft a)
     (isBeingDragged a).
Definition set_jumpDirection (a : t) (v : jumpDir) : t :=
  mk (box a) (cfg a) (speed a) (lastJump a) (lastDirection a) (lastLooked a)
     v (jumpKeyDown a) (numJumps a) (inAir a) (fallLeft a)
     (isBeingDragged a).
Definition set_jumpKeyDown (a : t) (v : bool) : t :=
  mk (box a) (cfg a) (speed a) (lastJump a) (lastDirection a) (lastLooked a)
     (jumpDirection a) v (numJumps a) (inAir a) (fallLeft a)
     (isBeingDragged a).
Definition set_numJumps (a : t) (v : Z) : t :=
  mk (box a) (cfg a) (speed a) (lastJump a) (lastDirection a) (lastLooked a)
     (jumpDirection a) (jumpKeyDown a) v (inAir a) (fallLeft a)
     (isBeingDragged a).
Definition set_inAir (a : t) (v : bool) : t :=
  mk (box a) (cfg a) (speed a) (lastJump a) (lastDirection a) (lastLooked a)
     (jumpDirection a) (jumpKeyDown a) (numJumps a) v (fallLeft a)
     (isBeingDragged a).
Definition set_fallLeft (a : t) (v : option bool) : t :=
  mk (box a) (cfg a) (speed a) (lastJump a) (lastDirection a) (lastLooked a)
     (jumpDirection a) (jumpKeyDown a) (numJumps a) (inAir a) v
     (isBeingDragged a).
Definition set_isBeingDragged (a : t) (v : bool) : t :=
  mk (box a) (cfg a) (speed a) (lastJump a) (lastDirection a) (lastLooked a)
     (jumpDirection a) (jumpKeyDown a) (numJumps a) (inAir a) (fallLeft a) v.

(** [init]: the Box initialiser, then the per-instance arrays; every other
    dynamic field starts at its prototype value. *)
Definition fresh (c : settings) (b : Box) : t :=
  mk b c 0 0%Z [] [] (mkJumpDir false false) false 0%Z false None false.

Definition init (env : Env) (c : settings) (ox oy ow oh : option Q) : t :=
  fresh c (Box.init env ox oy ow oh).

(** The displacement object [{x: .., y: ..}]. *)
Record moved := mkMoved { mx : Q; my : Q }.

Definition isInAir (a : t) : bool := inAir a.
Definition isJumping (a : t) : bool := (numJumps a >? 0)%Z.
Definition isFalling (a : t) : bool := isInAir a && (numJumps a =? 0)%Z.
Definition hasAirMomentum (a : t) : bool :=
  match fallLeft a with Some _ => true | None => false end
  || jd_left (jumpDirection a) || jd_right (jumpDirection a).

Definition moveAmount (env : Env) (a : t) : Q := MOVEAMOUNT a * lastDelta env.

(** *** move *)

(** The left/right branch of [move]; returns the Actor, [moved.x] and the
    locals [left] and [right] (here [left_] and [right_]). *)
Definition move_horizontal (env : Env) (k : Keys.t) (direction : list string)
    (a : t) : t * Q * bool * bool :=
  let m := moveAmount env a in
  if anyIn env (Keys.left k) direction &&
     (Q_ge (x a - m) 0 || negb (STAY_IN_WORLD a)) then
    let a := set_fallLeft a (Some true) in
    if GRAVITY a && isInAir a then
      if jd_right (jumpDirection a) || negb (jd_left (jumpDirection a)) then
        (set_jumpDirection (set_x a (x a - m * AIR_CONTROL a)) (mkJumpDir false false),
         0 - m * AIR_CONTROL a, true, false)
      else (a, 0, true, false)
    else (set_x a (x a - m), 0 - m, true, false)
  else if anyIn env (Keys.right k) direction &&
          (Qle_bool (x a + width a + m) (world_width (world env)) ||
           negb (STAY_IN_WORLD a)) then
    let a := set_fallLeft a (Some false) in
    if GRAVITY a && isInAir a then
      if jd_left (jumpDirection a) || negb (jd_right (jumpDirection a)) then
        (set_jumpDirection (set_x a (x a + m * AIR_CONTROL a)) (mkJumpDir false false),
         0 + m * AIR_CONTROL a, false, true)
      else (a, 0, false, true)
    else (set_x a (x a + m), 0 + m, false, true)
  else (a, 0, false, false).

(** The guard of the jump: the Actor is on the ground or has jumps left. *)
Definition canJump (a : t) : bool :=
  negb (isInAir a) || (MULTI_JUMP a >? numJumps a)%Z || (MULTI_JUMP a =? -1)%Z.

(** The second guard: enough time since the last jump, and the jump key
    was released if that is required. *)
Definition jumpReady (now : Z) (a : t) : bool :=
  (now - lastJump a >? JUMP_DELAY a)%Z &&
  (negb (JUMP_RELEASE a) || negb (jumpKeyDown a)).

Definition jump (now : Z) (left_ right_ : bool) (a : t) : t :=
  let a := set_speed a (- JUMP_VEL a) in
  let a := set_lastJump a now in
  let a := set_jumpDirection a (mkJumpDir right_ left_) in
  let a := set_numJumps a (numJumps a + 1)%Z in
  set_inAir a true.

(** The up/down branch of [move]; returns the Actor, [moved.y] and whether
    the branch set [looked]. *)
Definition move_vertical (env : Env) (k : Keys.t) (direction : list string)
    (now : Z) (left_ right_ : bool) (a : t) : t * Q * bool :=
  let m := moveAmount env a in
  if anyIn env (Keys.up k) direction &&
     (Q_ge (y a - m) 0 || negb (STAY_IN_WORLD a)) then
    if negb (GRAVITY a) then
      (set_jumpKeyDown (set_y a (y a - m)) true, 0 - m, true)
    else if canJump a then
      if jumpReady now a then
        (set_jumpKeyDown (jump now left_ right_ a) true, 0, false)
      else (set_jumpKeyDown a true, 0, false)
    else (set_jumpKeyDown a true, 0, false)
  else if anyIn env (Keys.down k) direction &&
          (Qle_bool (y a + height a + m) (world_height (world env)) ||
           negb (STAY_IN_WORLD a)) then
    if negb (isInAir a) || negb (GRAVITY a) then
      (set_y a (y a + m), 0 + m, true)
    else (a, 0, false)
  else (a, 0, false).

Definition mem_key (s : string) (ks : list string) : bool :=
  existsb (String.eqb s) ks.

(** The end of [move]: remember where the Actor looks; with gravity only
    the left and right keys are kept. *)
Definition look (k : Keys.t) (direction : list string) (a : t) : t :=
  if GRAVITY a then
    set_lastLooked a
      (filter (fun d => mem_key d (Keys.left k) || mem_key d (Keys.right k)) direction)
  else set_lastLooked a direction.

(** The directions [move] works with: the argument, or for continuous
    movement the last looked direction when the argument is missing or
    empty; [None] when [move] returns at once. *)
Definition chosen_direction (direction : option (list string)) (a : t)
    : option (list string) :=
  match direction with
  | Some (k :: d) => Some (k :: d)
  | _ => if CONTINUOUS_MOVEMENT a then Some (lastLooked a) else None
  end.

(** [move(direction)] at clock value [now]; [direction = None] is a call
    without the argument. *)
Definition move (env : Env) (now : Z) (direction : option (list string))
    (a : t) : t * moved :=
  match keys env with
  | None => (a, mkMoved 0 0)
  | Some k =>
      match chosen_direction direction a with
      | None => (a, mkMoved 0 0)
      | Some d =>
          let a := set_lastDirection a d in
          let '(a, dx, left_, right_) := move_horizontal env k d a in
          let '(a, dy, lookedV) := move_vertical env k d now left_ right_ a in
          let a := if left_ || right_ || lookedV then look k d a else a in
          (a, mkMoved dx dy)
      end
  end.

(** *** moveOutside *)

Definition moveOutsideX (a : t) (other : Box) : t * Q :=
  if Box.overlaps a other then
    if Q_lt (x a + width a / 2) (Box.x other + Box.width other / 2) then
      let movedTo := Box.x other - width a - 1 in
      (set_x a movedTo, movedTo - x a)
    else
      let movedTo := Box.x other + Box.width other + 1 in
      (set_x a movedTo, movedTo - x a)
  else (a, 0).

Definition moveOutsideY (a : t) (other : Box) : t * Q :=
  if Box.overlaps a other then
    if Qle_bool (y a + height a / 2) (Box.y other + Box.height other / 2) then
      let movedTo := Box.y other - height a - 1 in
      (set_y a movedTo, movedTo - y a)
    else
      let movedTo := Box.y other + Box.height other + 1 in
      (set_y a movedTo, movedTo - y a)
  else (a, 0).

(** The locals [overlapsX] and [overlapsY] of [moveOutside]: how deep the
    Actor is inside [other] on each axis. *)
Definition depthX (a : t) (other : Box) : Q :=
  Math_min (x a + width a - Box.x other) (Box.x other + Box.width other - x a).
Definition depthY (a : t) (other : Box) : Q :=
  Math_min (y a + height a - Box.y other) (Box.y other + Box.height other - y a).

Definition moveOutside (a : t) (other : Box) : t * moved :=
  if Qle_bool (depthX a other) (depthY a other) then
    let '(a1, dx) := moveOutsideX a other in
    let '(a2, dy) := moveOutsideY a1 other in
    (a2, mkMoved dx dy)
  else
    let '(a1, dy) := moveOutsideY a other in
    let '(a2, dx) := moveOutsideX a1 other in
    (a2, mkMoved dx dy).

(** *** Falling and landing *)

Definition startFalling (a : t) : t :=
  let a := match fallLeft a with
           | Some fl =>
               if negb (inAir a) then set_jumpDirection a (mkJumpDir (negb fl) fl)
               else a
           | None => a
           end in
  set_inAir a true.

Definition stopFalling (env : Env) (a : t) : t :=
  let a := if Q_gt (y a + height a + speed a * lastDelta env) (world_height (world env))
              && STAY_IN_WORLD a
           then set_y a (world_height (world env) - height a)
           else a in
  let a := if Q_gt (speed a) 0 then set_speed a 0 else a in
  let a := set_numJumps a 0%Z in
  set_inAir a false.

(** [standingOn] for a single Box. *)
Definition standingOn (env : Env) (a : t) (b : Box) : bool :=
  Box.overlapsX a b && almostEqual env (y a + height a) (Box.y b) 1.

(** [standingOn] for the items of a Collection or TileMap; [None] is the
    TypeError raised on an item that is not an object. *)
Fixpoint standingOnItems (env : Env) (a : t) (items : list value) : option bool :=
  match items with
  | [] => Some false
  | BoxV b :: tl => if standingOn env a b then Some true else standingOnItems env a tl
  | _ :: _ => None
  end.

(** *** collideSolid *)

Inductive obstacle :=
| OBox (b : Box)
| OCollection (c : Collection.t)
| OTileMap (tm : TileMap.t).

(** [getAll()] of a Collection or TileMap, as JavaScript values. *)
Definition obstacle_items (o : obstacle) : list value :=
  match o with
  | OBox b => [BoxV b]
  | OCollection c => map BoxV (Collection.getAll c)
  | OTileMap tm => TileMap.getAll tm
  end.

Record collision := mkCollision { falling : bool; collided : bool }.

(** The first step of [_collideSolidBox]: back out of an overlap. *)
Definition backOut (a : t) (collideWith : Box) : t * bool :=
  if Box.overlaps a collideWith then (fst (moveOutside a collideWith), true)
  else (a, false).

(** The standing check of [_collideSolidBox], made at the last X-position. *)
Definition checkStanding (env : Env) (m : moved) (a : t) (collideWith : Box) : t * bool :=
  let a := set_x a (x a - mx m) in
  let '(a, fallingV) :=
    if standingOn env a collideWith then (stopFalling env a, false) else (a, true) in
  (set_x a (x a + mx m), fallingV).

(** The last step of [_collideSolidBox]: in the air and hit something. *)
Definition stopMomentum (env : Env) (a : t) (collideWith : Box) : t :=
  if almostEqual env (y a) (Box.y collideWith + Box.height collideWith) 1 then
    if Q_lt (speed a) 0 then set_speed a 0 else a
  else
    set_jumpDirection (set_fallLeft a None) (mkJumpDir false false).

Definition _collideSolidBox (env : Env) (m : moved) (a : t) (collideWith : Box)
    : t * collision :=
  let '(a, collidedV) := backOut a collideWith in
  if GRAVITY a then
    let '(a, fallingV) := checkStanding env m a collideWith in
    let a := if fallingV && collidedV then stopMomentum env a collideWith else a in
    (a, mkCollision fallingV collidedV)
  else (a, mkCollision true collidedV).

(** The loop of [collideSolid] over [getAll()]; [None] is the TypeError of
    [this.overlaps(items[i])] on an item that is not an object. *)
Fixpoint collideItems (env : Env) (m : moved) (items : list value)
    (a : t) (fallingV collidedV : bool) : option (t * bool * bool) :=
  match items with
  | [] => Some (a, fallingV, collidedV)
  | BoxV b :: tl =>
      let '(a, r) := _collideSolidBox env m a b in
      collideItems env m tl a (fallingV && falling r) (collidedV || collided r)
  | _ :: _ => None
  end.

Definition collideSolid (env : Env) (m : moved) (collideWith : obstacle) (a : t)
    : option (t * bool) :=
  let falling0 := GRAVITY a &&
                  (Q_neq (y a + height a) (world_height (world env)) ||
                   negb (STAY_IN_WORLD a)) in
  let r := match collideWith with
           | OBox b =>
               let '(a, r) := _collideSolidBox env m a b in
               Some (a, falling r, collided r)
           | _ => collideItems env m (obstacle_items collideWith) a falling0 false
           end in
  match r with
  | Some (a, fallingV, collidedV) =>
      Some (if fallingV then startFalling a else a, collidedV)
  | None => None
  end.

(** *** isMoveAllowed *)

Definition isMoveAllowedBox (fix_ : bool) (a : t) (m : moved) (c : Box)
    : bool * t * moved :=
  if Q_neq (mx m) 0 &&
     (Q_ge (x a - Box.x c - Box.width c) (Math_min (mx m) 0) &&
      Qle_bool (x a + width a - Box.x c) (Math_max (mx m) 0)) &&
     (Qle_bool (y a - Box.y c - Box.height c) (Math_min (my m) 0) &&
      Q_ge (y a + height a - Box.y c) (Math_max (my m) 0)) then
    if fix_ then
      let my1 := my m / 2 in
      let a1 := set_y a (y a - my1) in
      let x0 := x a1 in
      let a2 := set_x a1 (if Q_gt (mx m) 0 then Box.x c - width a1
                          else Box.x c + Box.width c) in
      (false, a2, mkMoved (x a2 - x0) my1)
    else (false, a, m)
  else if Q_neq (my m) 0 &&
     (Q_ge (y a - Box.y c - Box.height c) (Math_min (my m) 0) &&
      Qle_bool (y a + height a - Box.y c) (Math_max (my m) 0)) &&
     (Qle_bool (x a - Box.x c - Box.width c) (Math_min (mx m) 0) &&
      Q_ge (x a + width a - Box.x c) (Math_max (mx m) 0)) then
    if fix_ then
      let mx1 := mx m / 2 in
      let a1 := set_x a (x a - mx1) in
      let y0 := y a1 in
      let a2 := set_y a1 (if Q_gt (my m) 0 then Box.y c - height a1
                          else Box.y c + Box.height c) in
      (false, a2, mkMoved mx1 (y a2 - y0))
    else (false, a, m)
  else (true, a, m).

(** The loop over [getAll()]: it stops at the first item that forbids the
    move.  An item that is not a Box (a hole of a cleared TileMap) matches
    no [instanceof] test and allows the move. *)
Fixpoint isMoveAllowedItems (fix_ : bool) (a : t) (m : moved) (items : list value)
    : bool * t * moved :=
  match items with
  | [] => (true, a, m)
  | BoxV b :: tl =>
      let '(ok, a1, m1) := isMoveAllowedBox fix_ a m b in
      if ok then isMoveAllowedItems fix_ a1 m1 tl else (false, a1, m1)
  | _ :: tl => isMoveAllowedItems fix_ a m tl
  end.

Definition isMoveAllowed (m : moved) (collideWith : obstacle) (fix_ : bool) (a : t)
    : bool * t * moved :=
  match collideWith with
  | OBox b => isMoveAllowedBox fix_ a m b
  | _ => isMoveAllowedItems fix_ a m (obstacle_items collideWith)
  end.

(** *** update and release *)

(** The gravity part of [update], after [move] returned [m]. *)
Definition applyGravity (env : Env) (a : t) (m : moved) : t * moved :=
  let amount := moveAmount env a in
  let moveStep := speed a * lastDelta env in
  let a := set_speed a (speed a + G_CONST a * lastDelta env) in
  let '(a, m) :=
    if isInAir a &&
       (Qle_bool (y a + height a + moveStep) (world_height (world env)) ||
        negb (STAY_IN_WORLD a)) then
      let a := set_y a (y a + moveStep) in
      let m := mkMoved (mx m) (my m + moveStep) in
      if jd_left (jumpDirection a) &&
         (Q_ge (x a - amount) 0 || negb (STAY_IN_WORLD a)) then
        (set_x a (x a - amount), mkMoved (mx m - amount) (my m))
      else if jd_right (jumpDirection a) &&
              (Qle_bool (x a + width a + amount) (world_width (world env)) ||
               negb (STAY_IN_WORLD a)) then
        (set_x a (x a + amount), mkMoved (mx m + amount) (my m))
      else (a, m)
    else (stopFalling env a, m) in
  (if Qeq_bool (mx m) 0 then set_fallLeft a None else a, m).

Definition update (env : Env) (now : Z) (direction : option (list string))
    (a : t) : t * moved :=
  if isBeingDragged a then
    let mcx := mouse_x env + xOffset (world env) - width a / 2 in
    let mcy := mouse_y env + yOffset (world env) - height a / 2 in
    (set_y (set_x a mcx) mcy, mkMoved (mcx - x a) (mcy - y a))
  else
    let '(a, m) := move env now direction a in
    if GRAVITY a then applyGravity env a m else (a, m).

Definition release (env : Env) (releasedDirections : list string) (a : t) : t :=
  match keys env with
  | Some k =>
      if GRAVITY a && anyIn env (Keys.up k) releasedDirections
      then set_jumpKeyDown a false
      else a
  | None => a
  end.

End Actor.

Coercion Actor.box : Actor.t >-> Box.t.
Coercion Actor.cfg : Actor.t >-> Actor.settings.

(** ** Box.collides

    [collides] takes a Box, a Collection or a TileMap.  The answer is the
    first item that overlaps ([Some]) or [false] ([None]); the outer [None]
    is the TypeError of [this.overlaps(items[i])] on an item that is not an
    object. *)

Fixpoint collidesItems (this : Box) (items : list value) : option (option Box) :=
  match items with
  | [] => Some None
  | BoxV b :: tl => if Box.overlaps this b then Some (Some b) else collidesItems this tl
  | _ :: _ => None
  end.

Definition collides (this : Box) (collideWith : Actor.obstacle) : option (option Box) :=
  match collideWith with
  | Actor.OBox b => Some (if Box.overlaps this b then Some b else None)
  | _ => collidesItems this (Actor.obstacle_items collideWith)
  end.

(** ** Player

    A Player is an Actor with one more setting, [MOVEWORLD]; a subclass
    overrides it, so it is an argument.  [jQuery.hotkeys.keysDown] and
    [mouse.scroll.isEnabled()] are defined outside this file and are
    arguments too.  The methods that move the viewport return the new
    World; the translation of the drawing context is left out. *)

Module Player.

Definition MOVEWORLD : Q := 45 # 100.

(** [move(direction)]: a missing argument stands for the keys held down. *)
Definition move (env : Env) (keysDown : list string) (now : Z)
    (direction : option (list string)) (a : Actor.t) : Actor.t * Actor.moved :=
  match direction with
  | None => Actor.move env now (Some keysDown) a
  | Some d => Actor.move env now (Some d) a
  end.

(** One axis of [adjustViewport]: the offset [o] of the viewport, the
    centre [c] of the Player, the size [canvas] of the canvas, the size
    [size] of the world and the displacement [d], all on that axis; returns
    the new offset and the entry of [changed]. *)
Definition adjustAxis (moveworld o c canvas size d : Q) : Q * Q :=
  if Q_gt o 0 && Q_lt (c - o) (canvas * moveworld) then
    let o' := Math_max (o + d) 0 in (o', o - o')
  else if Q_lt o (size - canvas) && Q_gt (c - o) (canvas * (1 - moveworld)) then
    let o' := Math_min (o + d) (size - canvas) in (o', o - o')
  else (o, 0).

Definition adjustViewport (env : Env) (scrolling : bool) (moveworld : Q)
    (a : Actor.t) (m : Actor.moved) : World * Actor.moved :=
  let '(ox, oy) := WorldMethods.getOffsets (world env) in
  if scrolling then (world env, Actor.mkMoved 0 0)
  else
    let '(ox', cx) :=
      adjustAxis moveworld ox (Actor.x a + Actor.width a / 2)
                 (canvas_width env) (world_width (world env)) (Actor.mx m) in
    let '(oy', cy) :=
      adjustAxis moveworld oy (Actor.y a + Actor.height a / 2)
                 (canvas_height env) (world_height (world env)) (Actor.my m) in
    (mkWorld (world_width (world env)) (world_height (world env)) ox' oy',
     Actor.mkMoved cx cy).

(** [update(direction)]: the Actor's [update], whose call of [this.move]
    reaches the Player's [move], then the viewport unless the Player is
    being dragged.  Returns the Player, [moved] and the World. *)
Definition update (env : Env) (keysDown : list string) (scrolling : bool)
    (moveworld : Q) (now : Z) (direction : option (list string)) (a : Actor.t)
    : Actor.t * Actor.moved * World :=
  let d := match direction with
           | None => Some keysDown
           | Some d => Some d
           end in
  let '(a, m) := Actor.update env now d a in
  (a, m,
   if negb (Actor.isBeingDragged a)
   then fst (adjustViewport env scrolling moveworld a m)
   else world env).

End Player.

(** ** Vocabulary of the properties *)

(** *** Boxes apart *)

(** The Actor is one unit clear of [solid] on the X axis. *)
Definition gapX (a : Actor.t) (solid : Box) : Prop :=
  Actor.x a + Actor.width a == Box.x solid - 1 \/
  Actor.x a == Box.x solid + Box.width solid + 1.

(** The same on the Y axis. *)
Definition gapY (a : Actor.t) (solid : Box) : Prop :=
  Actor.y a + Actor.height a == Box.y solid - 1 \/
  Actor.y a == Box.y solid + Box.height solid + 1.

(** *** The jump *)

(** [a'] has the vertical speed, last jump time, jump count and air flag of
    [a]. *)
Definition same_jump_state (a a' : Actor.t) : Prop :=
  Actor.speed a' = Actor.speed a /\
  Actor.lastJump a' = Actor.lastJump a /\
  Actor.numJumps a' = Actor.numJumps a /\
  Actor.inAir a' = Actor.inAir a.

(** [a'] is [a] after a jump at clock value [now]. *)
Definition jumped (now : Z) (a a' : Actor.t) : Prop :=
  Actor.speed a' = - Actor.JUMP_VEL a /\
  Actor.lastJump a' = now /\
  Actor.numJumps a' = (Actor.numJumps a + 1)%Z /\
  Actor.inAir a' = true.

(** The guard under which [move] makes the Actor jump, as the code tests it. *)
Definition jumps (env : Env) (now : Z) (direction : option (list string))
    (a : Actor.t) : bool :=
  match keys env, Actor.chosen_direction direction a with
  | Some k, Some d =>
      Actor.GRAVITY a && anyIn env (Keys.up k) d &&
      (Q_ge (Actor.y a - Actor.moveAmount env a) 0 || negb (Actor.STAY_IN_WORLD a)) &&
      Actor.canJump a && Actor.jumpReady now a
  | _, _ => false
  end.

(** The conditions of the jump, one by one: the jump input is received, *)
Definition jump_input (env : Env) (direction : option (list string)) (a : Actor.t) : Prop :=
  exists k d, keys env = Some k /\ Actor.chosen_direction direction a = Some d /\
              anyIn env (Keys.up k) d = true.

(** there is room to move up by one step, *)
Definition headroom (env : Env) (a : Actor.t) : Prop :=
  0 <= Actor.y a - Actor.moveAmount env a \/ Actor.STAY_IN_WORLD a = false.

(** the Actor is on the ground or has jumps left, *)
Definition multi_jump_ok (a : Actor.t) : Prop :=
  Actor.inAir a = false \/ (Actor.numJumps a < Actor.MULTI_JUMP a)%Z \/
  Actor.MULTI_JUMP a = (-1)%Z.

(** and the jump key was released if that is required. *)
Definition release_ok (a : Actor.t) : Prop :=
  Actor.JUMP_RELEASE a = false \/ Actor.jumpKeyDown a = false.

(** A run of calls to [move], each with its own globals, clock value and
    directions. *)
Fixpoint moves (attempts : list (Env * Z * option (list string))) (a : Actor.t) : Actor.t :=
  match attempts with
  | [] => a
  | (env, now, d) :: tl => moves tl (fst (Actor.move env now d a))
  end.

(** *** Reachable states *)

(** The invariant: on the ground the jump count is zero. *)
Definition grounded_no_jumps (a : Actor.t) : Prop :=
  Actor.inAir a = false -> Actor.numJumps a = 0%Z.

(** One call of a method that changes the Actor. *)
Inductive step : Actor.t -> Actor.t -> Prop :=
| step_move env now d a : step a (fst (Actor.move env now d a))
| step_update env now d a : step a (fst (Actor.update env now d a))
| step_startFalling a : step a (Actor.startFalling a)
| step_stopFalling env a : step a (Actor.stopFalling env a)
| step_collideSolid env m o a a' c :
    Actor.collideSolid env m o a = Some (a', c) -> step a a'
| step_release env r a : step a (Actor.release env r a)
| step_moveOutside o a : step a (fst (Actor.moveOutside a o))
| step_isMoveAllowed m o f a : step a (snd (fst (Actor.isMoveAllowed m o f a))).

(** The Actors that the initialiser and the methods can produce. *)
Inductive reachable : Actor.t -> Prop :=
| reach_init env c ox oy ow oh : reachable (Actor.init env c ox oy ow oh)
| reach_step a a' : reachable a -> step a a' -> reachable a'.

(** Operations that leave everything but the box alone. *)
Definition only_box (a a' : Actor.t) : Prop := a' = Actor.set_box a (Actor.box a').

(** *** Landing *)

(** The Actor as [_collideSolidBox] looks at it for the standing check:
    moved back to its last X-position. *)
Definition at_last_x (m : Actor.moved) (a : Actor.t) : Actor.t :=
  Actor.set_x a (Actor.x a - Actor.mx m).

(** Landed: on the ground, with no jumps counted and not moving down. *)
Definition landed (a : Actor.t) : Prop :=
  Actor.inAir a = false /\ Actor.numJumps a = 0%Z /\ Actor.speed a <= 0.

(** The Actor when the loop of [collideSolid] reaches the item after [pre]. *)
Definition state_before (env : Env) (m : Actor.moved) (pre : list value) (a : Actor.t)
    : option Actor.t :=
  match Actor.collideItems env m pre a true false with
  | Some (a1, _, _) => Some a1
  | None => None
  end.

(** Every item is a Box. *)
Definition all_boxes (items : list value) : Prop :=
  Forall (fun v => exists b, v = BoxV b) items.

(** [P] holds of the Actor that [collideSolid] returned. *)
Definition returned (r : option (Actor.t * bool)) (P : Actor.t -> Prop) : Prop :=
  match r with
  | Some (a, _) => P a
  | None => False
  end.

(** *** Tile maps *)

(** [getAll()] after [clearAll()]. *)
Definition cleared_items (tm : TileMap.t) : option (list value) :=
  match TileMap.clearAll tm with
  | Some tm' => Some (TileMap.getAll tm')
  | None => None
  end.

(** The references of a TileMap point into its store. *)
Definition store_ok (tm : TileMap.t) : Prop :=
  (TileMap.grid_var tm < length (TileMap.arrays tm))%nat /\
  (TileMap.this_grid tm < length (TileMap.arrays tm))%nat /\
  (TileMap.getRows tm <= length (TileMap.deref tm (TileMap.grid_var tm)))%nat.





(** ** Scenarios *)

(** One key per direction. *)
Definition keys0 : Keys.t :=
  Keys.mk ["up"%string] ["down"%string] ["left"%string] ["right"%string].

(** A 1000x1000 world shown whole, a tenth of a second per frame. *)
Definition env0 : Env :=
  mkEnv (mkWorld 1000 1000 0 0) 1000 1000 (1 # 10) (Some keys0) 0 0
        anyIn_some almostEqual_within.

(** The same world with the strict [almostEqual]. *)
Definition env_strict : Env :=
  mkEnv (mkWorld 1000 1000 0 0) 1000 1000 (1 # 10) (Some keys0) 0 0
        anyIn_some almostEqual_strict.

(** The default settings with gravity switched on. *)
Definition side_view : Actor.settings :=
  Actor.mkSettings 400 true 1500 800 250 (1 # 4) false 0 false true.

(** The scenario of the spec: a 10x10 body at the origin and a 10x10 solid
    five units to its right. *)
Definition body_at_origin : Actor.t :=
  Actor.fresh Actor.default_settings (Box.mk 0 0 10 10).
Definition solid_at_5 : Box := Box.mk 5 0 10 10.

(** A 10x10 ledge with its top at y = 100, and a 10x10 Actor whose bottom
    is half a unit above that top, to the left of the ledge's middle. *)
Definition ledge : Box := Box.mk 5 100 10 10.
Definition hopper : Actor.t := Actor.fresh side_view (Box.mk 0 (179 # 2) 10 10).

(** The hopper right after a jump. *)
Definition hopper_jumping : Actor.t :=
  fst (Actor.move env0 1000 (Some ["up"%string]) hopper).

(** A floor below and a beam above a 10x10 Actor that sticks into the beam. *)
Definition floor_box : Box := Box.mk 0 100 10 10.
Definition beam : Box := Box.mk 0 (137 # 2) 10 20.
Definition squeezed : Actor.t := Actor.fresh side_view (Box.mk 0 80 10 10).

(** Three runs of [collideSolid] that end with the Actor standing over a
    Box (X-overlap, bottom within 1 of the top) without having landed: a
    single Box after a horizontal move of 100, where the Actor is in the
    air; a single Box under an Actor that is rising, where the speed stays
    -800; and a Collection of a floor and a beam without horizontal move,
    where backing out of the beam puts the Actor over the floor handled
    before, in the air. *)
Definition standing_but_not_landed (env : Env) : Prop :=
  returned (Actor.collideSolid env (Actor.mkMoved 100 0) (Actor.OBox ledge) hopper)
    (fun a' => Actor.standingOn env a' ledge = true /\ Actor.isInAir a' = true) /\
  returned (Actor.collideSolid env (Actor.mkMoved 0 0) (Actor.OBox ledge) hopper_jumping)
    (fun a' => Actor.standingOn env a' ledge = true /\ Actor.isInAir a' = false /\
               Actor.speed a' == -800) /\
  returned (Actor.collideSolid env (Actor.mkMoved 0 0)
              (Actor.OCollection (Collection.mk [floor_box; beam])) squeezed)
    (fun a' => Actor.standingOn env a' floor_box = true /\ Actor.isInAir a' = true).

(** A 10x10 Actor on the ground, ten units below the top of the world. *)
Definition near_ceiling : Actor.t := Actor.fresh side_view (Box.mk 100 10 10 10).

(** Settings that allow MULTI_JUMP = 1, and an Actor on the ground. *)
Definition one_multi_jump : Actor.settings :=
  Actor.mkSettings 400 true 1500 800 250 (1 # 4) false 1 false true.
Definition grounded : Actor.t := Actor.fresh one_multi_jump (Box.mk 100 500 10 10).

(** The first jump, one frame of gravity, then a second press of the jump
    key a second after the first. *)
Definition first_jump : Actor.t :=
  fst (Actor.move env0 1000 (Some ["up"%string]) grounded).
Definition first_jump_rising : Actor.t :=
  fst (Actor.update env0 1100 None first_jump).
Definition second_attempt : Actor.t :=
  fst (Actor.move env0 2000 (Some ["up"%string]) first_jump_rising).

(** An Actor in the air with [G_CONST = 1000] and vertical speed 0. *)
Definition falling_settings : Actor.settings :=
  Actor.mkSettings 400 true 1000 800 250 (1 # 4) false 0 false true.
Definition airborne : Actor.t :=
  Actor.set_inAir (Actor.fresh falling_settings (Box.mk 100 100 10 10)) true.

(** An Actor made by the initialiser, after a jump and a landing. *)
Definition jumped_and_landed : Actor.t :=
  Actor.stopFalling env0
    (fst (Actor.move env0 1000 (Some ["up"%string])
            (Actor.init env0 side_view (Some 100) (Some 500) (Some 10) (Some 10)))).

(** A TileMap of one 10x10 Box tile. *)
Definition one_tile : TileMap.t :=
  TileMap.new env0 [[TileMap.SNull; TileMap.SBoxClass]] (Some (10, 10)) None.

(** A row of tiles: none in column 0, 10x10 Boxes in columns 1 and 2. *)
Definition shelf : TileMap.t :=
  TileMap.new env0 [[TileMap.SNull; TileMap.SBoxClass; TileMap.SBoxClass]]
              (Some (10, 10)) None.

(** Two rows with a 10x10 Box in column 1 of each. *)
Definition stack : TileMap.t :=
  TileMap.new env0 [[TileMap.SNull; TileMap.SBoxClass];
                    [TileMap.SNull; TileMap.SBoxClass]]
              (Some (10, 10)) None.

(** ** Vocabulary and scenarios of the further properties *)

(** [a] lies wholly beyond [b] on some axis. *)
Definition apart (a b : Box) : Prop :=
  Box.x a + Box.width a < Box.x b \/ Box.x b + Box.width b < Box.x a \/
  Box.y a + Box.height a < Box.y b \/ Box.y b + Box.height b < Box.y a.

(** The rectangle of the world. *)
Definition world_rect (w : World) : Box := Box.mk 0 0 (world_width w) (world_height w).

(** The viewport sits in the middle of the world. *)
Definition centred (canvasW canvasH : Q) (w : World) : Prop :=
  xOffset w == (world_width w - canvasW) / 2 /\
  yOffset w == (world_height w - canvasH) / 2.

(** Every row is as long as the first. *)
Definition rectangular {A : Type} (g : list (list A)) : Prop :=
  forall r, In r g -> length r = length (hd [] g).

(** The Box templates of a grid argument. *)
Definition is_box_class (o : TileMap.source) : bool :=
  match o with
  | TileMap.SBoxClass => true
  | _ => false
  end.
Definition count_box_classes (g : list (list TileMap.source)) : nat :=
  length (filter is_box_class (concat g)).

(** What [forEach(f)] leaves in a cell: a Box that [f] selects is cleared. *)
Definition cleared_by (f : value -> nat -> nat -> bool) (v : value) (i j : nat) : value :=
  match v with
  | BoxV _ => if f v i j then Null else v
  | _ => v
  end.

(** Equality of cell indices is decidable. *)
Definition pair_eq_dec (p q : nat * nat) : {p = q} + {p <> q}.
Proof. decide equality; apply Nat.eq_dec. Defined.

(** [v] lies between [p] and [q], whichever is the smaller. *)
Definition between (p q v : Q) : Prop := Math_min p q <= v /\ v <= Math_max p q.

(** The Actor touches [c] from outside on the X axis, or on the Y axis. *)
Definition flushX (a : Actor.t) (c : Box) : Prop :=
  Actor.x a + Actor.width a == Box.x c \/ Actor.x a == Box.x c + Box.width c.
Definition flushY (a : Actor.t) (c : Box) : Prop :=
  Actor.y a + Actor.height a == Box.y c \/ Actor.y a == Box.y c + Box.height c.

(** A 10x10 Actor that a move of 110 to the right has carried from the
    left of [solid_at_5] to its right. *)
Definition passed_through : Actor.t :=
  Actor.fresh Actor.default_settings (Box.mk 100 0 10 10).

(** The box lies in the world on its left, right and bottom sides. *)
Definition within_sides (env : Env) (b : Box) : Prop :=
  0 <= Box.x b /\ Box.x b + Box.width b <= world_width (world env) /\
  Box.y b + Box.height b <= world_height (world env).

(** An Actor in the air near the top of the world, moving up. *)
Definition rising_at_top : Actor.t :=
  Actor.set_speed (Actor.set_inAir (Actor.fresh side_view (Box.mk 100 10 10 10)) true)
                  (-800).

(** The jump count is not negative, is zero on the ground and stays under
    the bound of [MULTI_JUMP]; the momentum of a jump points one way. *)
Definition jump_state_ok (a : Actor.t) : Prop :=
  (0 <= Actor.numJumps a)%Z /\
  (Actor.inAir a = false -> Actor.numJumps a = 0%Z) /\
  (Actor.MULTI_JUMP a <> (-1)%Z ->
   (Actor.numJumps a <= Z.max 1 (Actor.MULTI_JUMP a))%Z) /\
  Actor.jd_left (Actor.jumpDirection a) && Actor.jd_right (Actor.jumpDirection a) = false.

(** Settings of a Player: the jump key has to be released between jumps. *)
Definition release_settings : Actor.settings :=
  Actor.mkSettings 400 true 1500 800 250 (1 # 4) true 0 false true.

(** An Actor with these settings right after a jump. *)
Definition jumped_holding : Actor.t :=
  fst (Actor.move env0 1000 (Some ["up"%string])
         (Actor.fresh release_settings (Box.mk 100 500 10 10))).

(** * Properties *)

(** ** Comparisons *)

Lemma Qle_bool_reflect (a b : Q) : reflect (a <= b) (Qle_bool a b).
Proof.
  destruct (Qle_bool a b) eqn:E; constructor.
  - now apply Qle_bool_iff.
  - intro H. apply Qle_bool_iff in H. congruence.
Qed.

Lemma Qeq_bool_reflect (a b : Q) : reflect (a == b) (Qeq_bool a b).
Proof.
  destruct (Qeq_bool a b) eqn:E; constructor.
  - now apply Qeq_bool_iff.
  - intro H. apply Qeq_bool_iff in H. congruence.
Qed.

(** Case analysis on the condition of every [if] of the goal. *)
Ltac split_ifs :=
  repeat match goal with
         | |- context [if ?c then _ else _] => destruct c
         end.

(** Case analysis on every rational comparison of the goal. *)
Ltac qcases :=
  unfold Q_ge, Q_lt, Q_gt, Q_neq, Math_min, Math_max in *;
  repeat match goal with
         | |- context [Qle_bool ?a ?b] => destruct (Qle_bool_reflect a b)
         | |- context [Qeq_bool ?a ?b] => destruct (Qeq_bool_reflect a b)
         | H : context [Qle_bool ?a ?b] |- _ => destruct (Qle_bool_reflect a b)
         | H : context [Qeq_bool ?a ?b] |- _ => destruct (Qeq_bool_reflect a b)
         end;
  simpl in *.

(** ** moveOutside *)

Lemma overlapsX_iff (a b : Box) :
  Box.overlapsX a b = true <->
  Box.x b <= Box.x a + Box.width a /\ Box.x a <= Box.x b + Box.width b.
Proof.
  unfold Box.overlapsX, Q_ge. rewrite andb_true_iff, !Qle_bool_iff. tauto.
Qed.

Lemma overlapsY_iff (a b : Box) :
  Box.overlapsY a b = true <->
  Box.y b <= Box.y a + Box.height a /\ Box.y a <= Box.y b + Box.height b.
Proof.
  unfold Box.overlapsY, Q_ge. rewrite andb_true_iff, !Qle_bool_iff. tauto.
Qed.

Lemma overlaps_iff (a b : Box) :
  Box.overlaps a b = true <-> Box.overlapsX a b = true /\ Box.overlapsY a b = true.
Proof. unfold Box.overlaps. apply andb_true_iff. Qed.

Lemma positive_depth_overlaps (a : Actor.t) (solid : Box) :
  0 < Actor.depthX a solid -> 0 < Actor.depthY a solid ->
  Box.overlaps a solid = true.
Proof.
  unfold Actor.depthX, Actor.depthY, Actor.x, Actor.y, Actor.width, Actor.height.
  intros HX HY. apply overlaps_iff. rewrite overlapsX_iff, overlapsY_iff.
  qcases; lra.
Qed.

Lemma moveOutsideX_idle (a : Actor.t) (solid : Box) :
  Box.overlaps a solid = false -> Actor.moveOutsideX a solid = (a, 0).
Proof. intros H. unfold Actor.moveOutsideX. now rewrite H. Qed.

Lemma moveOutsideY_idle (a : Actor.t) (solid : Box) :
  Box.overlaps a solid = false -> Actor.moveOutsideY a solid = (a, 0).
Proof. intros H. unfold Actor.moveOutsideY. now rewrite H. Qed.

Lemma not_overlapsX (a b : Box) :
  Box.x a + Box.width a < Box.x b \/ Box.x b + Box.width b < Box.x a ->
  Box.overlaps a b = false.
Proof.
  intros H. unfold Box.overlaps.
  destruct (Box.overlapsX a b) eqn:E; [|reflexivity].
  apply overlapsX_iff in E. lra.
Qed.

Lemma not_overlapsY (a b : Box) :
  Box.y a + Box.height a < Box.y b \/ Box.y b + Box.height b < Box.y a ->
  Box.overlaps a b = false.
Proof.
  intros H. unfold Box.overlaps.
  destruct (Box.overlapsY a b) eqn:E; [|apply andb_false_r].
  apply overlapsY_iff in E. lra.
Qed.

Lemma moveOutsideX_gap (a : Actor.t) (solid : Box) :
  Box.overlaps a solid = true -> gapX (fst (Actor.moveOutsideX a solid)) solid.
Proof.
  intros H. unfold Actor.moveOutsideX, gapX. rewrite H.
  destruct (Q_lt _ _); simpl; unfold Actor.x, Actor.width; simpl; [left|right]; lra.
Qed.

Lemma moveOutsideY_gap (a : Actor.t) (solid : Box) :
  Box.overlaps a solid = true -> gapY (fst (Actor.moveOutsideY a solid)) solid.
Proof.
  intros H. unfold Actor.moveOutsideY, gapY. rewrite H.
  destruct (Qle_bool _ _); simpl; unfold Actor.y, Actor.height; simpl; [left|right]; lra.
Qed.

Lemma gapX_outside (a : Actor.t) (solid : Box) :
  gapX a solid -> Box.overlaps a solid = false.
Proof.
  unfold gapX, Actor.x, Actor.width. intros H. apply not_overlapsX. lra.
Qed.

Lemma gapY_outside (a : Actor.t) (solid : Box) :
  gapY a solid -> Box.overlaps a solid = false.
Proof.
  unfold gapY, Actor.y, Actor.height. intros H. apply not_overlapsY. lra.
Qed.

(** C1: a body that overlaps a solid with positive depth on both axes is
    outside it after one [moveOutside]: [overlaps] is false, and the axis
    that was separated (X when its depth is the smaller or equal one, Y
    otherwise) ends one unit away from the solid. *)
Theorem moveOutside_separates (a : Actor.t) (solid : Box) :
  0 < Actor.depthX a solid ->
  0 < Actor.depthY a solid ->
  let a' := fst (Actor.moveOutside a solid) in
  Box.overlaps a' solid = false /\
  (Actor.depthX a solid <= Actor.depthY a solid -> gapX a' solid) /\
  (Actor.depthY a solid < Actor.depthX a solid -> gapY a' solid).
Proof.
  intros HX HY.
  pose proof (positive_depth_overlaps a solid HX HY) as Hov.
  unfold Actor.moveOutside.
  destruct (Qle_bool_reflect (Actor.depthX a solid) (Actor.depthY a solid)) as [Hle|Hgt].
  - pose proof (moveOutsideX_gap a solid Hov) as G.
    destruct (Actor.moveOutsideX a solid) as [a1 dx]; simpl in G.
    rewrite (moveOutsideY_idle a1 solid (gapX_outside _ _ G)). simpl.
    split; [now apply gapX_outside|]. split; [auto|]. intros. lra.
  - pose proof (moveOutsideY_gap a solid Hov) as G.
    destruct (Actor.moveOutsideY a solid) as [a1 dy]; simpl in G.
    rewrite (moveOutsideX_idle a1 solid (gapY_outside _ _ G)). simpl.
    split; [now apply gapY_outside|]. split; [|auto]. intros. lra.
Qed.

(** The scenario of the spec meets the hypotheses of C1. *)
Lemma moveOutside_separates_witness :
  Box.overlaps (fst (Actor.moveOutside body_at_origin solid_at_5)) solid_at_5 = false.
Proof.
  apply (moveOutside_separates body_at_origin solid_at_5); vm_compute; reflexivity.
Defined.

(** C7 as the spec states it fails: the body does not end at x = -11. *)
Lemma moveOutside_scenario_not_minus_11 :
  ~ (Box.overlapsX body_at_origin solid_at_5 = true /\
     Actor.x (fst (Actor.moveOutside body_at_origin solid_at_5)) == -11).
Proof. vm_compute. intros [_ H]. discriminate H. Qed.

(** C7, amended: for the body at (0, 0, 10, 10) and the solid at
    (5, 0, 10, 10), [overlapsX] is true and [moveOutside] puts the body at
    x = -6, that is [solid.x - body.width - 1], one unit left of the solid;
    y stays 0 and the returned displacement is (-6, 0). *)
Theorem moveOutside_scenario :
  Box.overlapsX body_at_origin solid_at_5 = true /\
  Actor.x body_at_origin + Actor.width body_at_origin / 2
    < Box.x solid_at_5 + Box.width solid_at_5 / 2 /\
  let r := Actor.moveOutside body_at_origin solid_at_5 in
  Actor.x (fst r) == -6 /\
  Actor.x (fst r) == Box.x solid_at_5 - Actor.width body_at_origin - 1 /\
  Actor.y (fst r) == 0 /\
  Actor.mx (snd r) == -6 /\
  Actor.my (snd r) == 0.
Proof. vm_compute. repeat split; reflexivity. Qed.

(** ** isMoveAllowed without fix *)

Lemma isMoveAllowedBox_no_fix (a : Actor.t) (m : Actor.moved) (c : Box) :
  exists ok : bool, Actor.isMoveAllowedBox false a m c = (ok, a, m).
Proof.
  unfold Actor.isMoveAllowedBox.
  destruct (_ && _ && _); [now exists false|].
  destruct (_ && _ && _); [now exists false|now exists true].
Qed.

Lemma isMoveAllowedItems_no_fix (items : list value) (a : Actor.t) (m : Actor.moved) :
  exists ok : bool, Actor.isMoveAllowedItems false a m items = (ok, a, m).
Proof.
  induction items as [|v tl IH]; simpl.
  - now exists true.
  - destruct v as [| |b]; try exact IH.
    destruct (isMoveAllowedBox_no_fix a m b) as [ok E]. rewrite E.
    destruct ok; [exact IH|now exists false].
Qed.

(** C8: for every Actor, displacement and obstacle (Box, Collection or
    TileMap), [isMoveAllowed(moved, obstacle, false)] returns a boolean and
    leaves the Actor and the [moved] object as they were. *)
Theorem isMoveAllowed_no_fix (a : Actor.t) (m : Actor.moved) (o : Actor.obstacle) :
  exists ok : bool, Actor.isMoveAllowed m o false a = (ok, a, m).
Proof.
  destruct o; simpl.
  - apply isMoveAllowedBox_no_fix.
  - apply isMoveAllowedItems_no_fix.
  - apply isMoveAllowedItems_no_fix.
Qed.

(** ** What [move] does to the jump state *)

(** Reduce the projections of updated Actors. *)
Ltac fields :=
  unfold Actor.set_x, Actor.set_y, Actor.set_box, Actor.set_speed,
    Actor.set_lastJump, Actor.set_lastDirection, Actor.set_lastLooked,
    Actor.set_jumpDirection, Actor.set_jumpKeyDown, Actor.set_numJumps,
    Actor.set_inAir, Actor.set_fallLeft, Actor.set_isBeingDragged,
    Actor.x, Actor.y, Actor.width, Actor.height, Box.set_x, Box.set_y in *;
  cbn in *.

Lemma move_horizontal_keeps env k d a :
  let a' := fst (fst (fst (Actor.move_horizontal env k d a))) in
  same_jump_state a a' /\ Actor.cfg a' = Actor.cfg a /\
  Actor.jumpKeyDown a' = Actor.jumpKeyDown a /\
  Actor.y a' = Actor.y a /\ Actor.height a' = Actor.height a.
Proof.
  unfold Actor.move_horizontal, same_jump_state.
  split_ifs; simpl; repeat split; reflexivity.
Qed.

Lemma look_keeps k d a :
  same_jump_state a (Actor.look k d a) /\
  Actor.cfg (Actor.look k d a) = Actor.cfg a /\
  Actor.jumpKeyDown (Actor.look k d a) = Actor.jumpKeyDown a.
Proof.
  unfold Actor.look, same_jump_state. destruct (Actor.GRAVITY a); simpl; auto 10.
Qed.

Lemma move_vertical_jump env k d now l r a :
  let a' := fst (fst (Actor.move_vertical env k d now l r a)) in
  Actor.cfg a' = Actor.cfg a /\
  if Actor.GRAVITY a && anyIn env (Keys.up k) d &&
     (Q_ge (Actor.y a - Actor.moveAmount env a) 0 || negb (Actor.STAY_IN_WORLD a)) &&
     Actor.canJump a && Actor.jumpReady now a
  then jumped now a a'
  else same_jump_state a a'.
Proof.
  unfold Actor.move_vertical, jumped, same_jump_state.
  destruct (Actor.GRAVITY a); simpl.
  - destruct (anyIn env (Keys.up k) d && _); simpl.
    + destruct (Actor.canJump a); simpl; [|auto 10].
      destruct (Actor.jumpReady now a); simpl; auto 10.
    + split_ifs; simpl; auto 10.
  - split_ifs; simpl; auto 10.
Qed.

Lemma move_jump_state env now direction a :
  let a' := fst (Actor.move env now direction a) in
  Actor.cfg a' = Actor.cfg a /\
  if jumps env now direction a then jumped now a a' else same_jump_state a a'.
Proof.
  unfold Actor.move, jumps.
  destruct (keys env) as [k|]; [|simpl; unfold same_jump_state; auto 10].
  destruct (Actor.chosen_direction direction a) as [d|];
    [|simpl; unfold same_jump_state; auto 10].
  pose proof (move_horizontal_keeps env k d (Actor.set_lastDirection a d)) as H.
  destruct (Actor.move_horizontal env k d (Actor.set_lastDirection a d))
    as [[[a1 dx] l] r]. unfold same_jump_state in H. fields.
  destruct H as ((Hs & Hl & Hn & Hi) & Hc & Hk & Hy & Hh).
  pose proof (move_vertical_jump env k d now l r a1) as V.
  destruct (Actor.move_vertical env k d now l r a1) as [[a2 dy] lk]. simpl in V.
  destruct V as [Vc V].
  assert (G : Actor.canJump a1 = Actor.canJump a).
  { unfold Actor.canJump, Actor.isInAir. now rewrite Hc, Hn, Hi. }
  assert (R : Actor.jumpReady now a1 = Actor.jumpReady now a).
  { unfold Actor.jumpReady. now rewrite Hc, Hl, Hk. }
  assert (M : Actor.moveAmount env a1 = Actor.moveAmount env a).
  { unfold Actor.moveAmount. now rewrite Hc. }
  unfold Actor.y in V. rewrite G, R, M, Hy, Hc in V.
  set (a3 := if l || r || lk then Actor.look k d a2 else a2).
  assert (L : same_jump_state a2 a3 /\ Actor.cfg a3 = Actor.cfg a2).
  { subst a3. destruct (l || r || lk).
    - pose proof (look_keeps k d a2). tauto.
    - unfold same_jump_state. auto 10. }
  simpl. fold a3.
  destruct L as ((Ls & Ll & Ln & Li) & Lc).
  split; [congruence|].
  destruct (_ && _ && _ && _ && _).
  - unfold jumped in *. rewrite Ls, Ll, Ln, Li, Hc, Hn in *. tauto.
  - unfold same_jump_state in *. rewrite Ls, Ll, Ln, Li. intuition congruence.
Qed.

(** ** Operations that only move the box *)

Lemma only_box_refl a : only_box a a.
Proof. destruct a; reflexivity. Qed.

Lemma only_box_trans a b c : only_box a b -> only_box b c -> only_box a c.
Proof.
  unfold only_box. intros H1 H2. rewrite H2 at 1. rewrite H1 at 1.
  destruct a; reflexivity.
Qed.

Lemma only_box_set_x a v : only_box a (Actor.set_x a v).
Proof. destruct a; reflexivity. Qed.

Lemma only_box_set_y a v : only_box a (Actor.set_y a v).
Proof. destruct a; reflexivity. Qed.

Create HintDb frame.
#[local] Hint Resolve only_box_refl only_box_set_x only_box_set_y : frame.

Lemma moveOutsideX_only_box a o : only_box a (fst (Actor.moveOutsideX a o)).
Proof.
  unfold Actor.moveOutsideX.
  split_ifs; simpl; auto with frame.
Qed.

Lemma moveOutsideY_only_box a o : only_box a (fst (Actor.moveOutsideY a o)).
Proof.
  unfold Actor.moveOutsideY.
  split_ifs; simpl; auto with frame.
Qed.

Lemma moveOutside_only_box a o : only_box a (fst (Actor.moveOutside a o)).
Proof.
  unfold Actor.moveOutside.
  destruct (Qle_bool _ _).
  - pose proof (moveOutsideX_only_box a o) as H1.
    destruct (Actor.moveOutsideX a o) as [a1 dx].
    pose proof (moveOutsideY_only_box a1 o) as H2.
    destruct (Actor.moveOutsideY a1 o) as [a2 dy]. simpl in *.
    eauto using only_box_trans.
  - pose proof (moveOutsideY_only_box a o) as H1.
    destruct (Actor.moveOutsideY a o) as [a1 dx].
    pose proof (moveOutsideX_only_box a1 o) as H2.
    destruct (Actor.moveOutsideX a1 o) as [a2 dy]. simpl in *.
    eauto using only_box_trans.
Qed.

Lemma only_box_inv a a' : only_box a a' -> grounded_no_jumps a -> grounded_no_jumps a'.
Proof. unfold only_box, grounded_no_jumps. intros ->. exact (fun H => H). Qed.

Lemma isMoveAllowedBox_only_box f a m c :
  only_box a (snd (fst (Actor.isMoveAllowedBox f a m c))).
Proof.
  unfold Actor.isMoveAllowedBox.
  split_ifs; simpl; eauto using only_box_trans with frame.
Qed.

Lemma isMoveAllowedItems_only_box f items : forall a m,
  only_box a (snd (fst (Actor.isMoveAllowedItems f a m items))).
Proof.
  induction items as [|v tl IH]; intros a m; simpl.
  - apply only_box_refl.
  - destruct v as [| |b]; try apply IH.
    pose proof (isMoveAllowedBox_only_box f a m b) as H.
    destruct (Actor.isMoveAllowedBox f a m b) as [[ok a1] m1]. simpl in H.
    destruct ok; simpl; eauto using only_box_trans.
Qed.

Lemma isMoveAllowed_only_box m o f a :
  only_box a (snd (fst (Actor.isMoveAllowed m o f a))).
Proof.
  destruct o; simpl;
    auto using isMoveAllowedBox_only_box, isMoveAllowedItems_only_box.
Qed.

#[local] Hint Resolve moveOutside_only_box isMoveAllowed_only_box : frame.

(** ** On the ground the jump count is zero *)

Lemma inv_fresh c b : grounded_no_jumps (Actor.fresh c b).
Proof. intros _. reflexivity. Qed.

Lemma inv_move env now d a :
  grounded_no_jumps a -> grounded_no_jumps (fst (Actor.move env now d a)).
Proof.
  intros I. destruct (move_jump_state env now d a) as [_ H].
  destruct (jumps env now d a).
  - destruct H as (_ & _ & _ & H). intros E. congruence.
  - destruct H as (_ & _ & Hn & Hi). intros E. rewrite Hn. apply I. congruence.
Qed.

Lemma inv_startFalling a : grounded_no_jumps (Actor.startFalling a).
Proof. intros E. discriminate E. Qed.

Lemma inv_stopFalling env a : grounded_no_jumps (Actor.stopFalling env a).
Proof. intros _. reflexivity. Qed.

Lemma inv_release env r a :
  grounded_no_jumps a -> grounded_no_jumps (Actor.release env r a).
Proof.
  unfold Actor.release. destruct (keys env); [|auto].
  destruct (_ && _); auto.
Qed.

Lemma inv_applyGravity env a m :
  grounded_no_jumps a -> grounded_no_jumps (fst (Actor.applyGravity env a m)).
Proof.
  unfold Actor.applyGravity, grounded_no_jumps, Actor.isInAir. intros I.
  destruct (Actor.inAir a) eqn:E; simpl.
  - split_ifs; simpl; auto; intros; try congruence.
  - split_ifs; simpl; auto.
Qed.

Lemma inv_update env now d a :
  grounded_no_jumps a -> grounded_no_jumps (fst (Actor.update env now d a)).
Proof.
  intros I. unfold Actor.update.
  destruct (Actor.isBeingDragged a).
  - exact I.
  - pose proof (inv_move env now d a I) as H.
    destruct (Actor.move env now d a) as [a1 m]. simpl in H.
    destruct (Actor.GRAVITY a1); [now apply inv_applyGravity|exact H].
Qed.

(** *** [_collideSolidBox] keeps the invariant *)

Lemma stopFalling_landed env a : landed (Actor.stopFalling env a).
Proof.
  unfold Actor.stopFalling, landed.
  repeat match goal with |- context [if ?c then _ else _] => destruct c eqn:? end;
    simpl; repeat split; try lra; qcases; lra.
Qed.

Lemma stopFalling_cfg env a : Actor.cfg (Actor.stopFalling env a) = Actor.cfg a.
Proof.
  unfold Actor.stopFalling.
  split_ifs; reflexivity.
Qed.

Lemma backOut_only_box a b : only_box a (fst (Actor.backOut a b)).
Proof.
  unfold Actor.backOut. destruct (Box.overlaps a b); simpl.
  - apply moveOutside_only_box.
  - apply only_box_refl.
Qed.

Lemma only_box_landed a a' : only_box a a' -> landed a -> landed a'.
Proof. unfold only_box, landed. intros ->. exact (fun H => H). Qed.

Lemma only_box_cfg a a' : only_box a a' -> Actor.cfg a' = Actor.cfg a.
Proof. unfold only_box. intros ->. reflexivity. Qed.

Lemma stopMomentum_landed env a b : landed a -> landed (Actor.stopMomentum env a b).
Proof.
  unfold Actor.stopMomentum, landed.
  split_ifs; simpl; intuition lra.
Qed.

Lemma stopMomentum_inv env a b :
  grounded_no_jumps a -> grounded_no_jumps (Actor.stopMomentum env a b).
Proof.
  unfold Actor.stopMomentum, grounded_no_jumps.
  split_ifs; simpl; auto.
Qed.

Lemma checkStanding_cases env m a b :
  let r := Actor.checkStanding env m a b in
  (Actor.standingOn env (at_last_x m a) b = true /\ snd r = false /\ landed (fst r)) \/
  (Actor.standingOn env (at_last_x m a) b = false /\ snd r = true /\
   fst r = Actor.set_x (at_last_x m a) (Actor.x (at_last_x m a) + Actor.mx m)).
Proof.
  unfold Actor.checkStanding. fold (at_last_x m a).
  destruct (Actor.standingOn env (at_last_x m a) b); simpl.
  - left. repeat split.
    apply (only_box_landed (Actor.stopFalling env (at_last_x m a))).
    + apply only_box_set_x.
    + apply stopFalling_landed.
  - right. auto.
Qed.

Lemma checkStanding_landed env m a b :
  landed a -> landed (fst (Actor.checkStanding env m a b)).
Proof.
  intros L. destruct (checkStanding_cases env m a b) as [(_ & _ & H)|(_ & _ & H)].
  - exact H.
  - rewrite H. unfold at_last_x.
    eapply only_box_landed; [|exact L].
    eapply only_box_trans; apply only_box_set_x.
Qed.

Lemma checkStanding_inv env m a b :
  grounded_no_jumps a -> grounded_no_jumps (fst (Actor.checkStanding env m a b)).
Proof.
  intros L. destruct (checkStanding_cases env m a b) as [(_ & _ & H)|(_ & _ & H)].
  - destruct H as (_ & H & _). intros _. exact H.
  - rewrite H. unfold at_last_x.
    eapply only_box_inv; [|exact L].
    eapply only_box_trans; apply only_box_set_x.
Qed.

Lemma _collideSolidBox_inv env m a b :
  grounded_no_jumps a -> grounded_no_jumps (fst (Actor._collideSolidBox env m a b)).
Proof.
  intros I. unfold Actor._collideSolidBox.
  pose proof (backOut_only_box a b) as B.
  destruct (Actor.backOut a b) as [a1 c1]. simpl in B.
  pose proof (only_box_inv _ _ B I) as I1.
  destruct (Actor.GRAVITY a1); [|exact I1].
  pose proof (checkStanding_inv env m a1 b I1) as I2.
  destruct (Actor.checkStanding env m a1 b) as [a2 f2]. simpl in *.
  destruct (f2 && c1); [now apply stopMomentum_inv|exact I2].
Qed.

Lemma collideItems_inv env m items : forall a f c a' f' c',
  Actor.collideItems env m items a f c = Some (a', f', c') ->
  grounded_no_jumps a -> grounded_no_jumps a'.
Proof.
  induction items as [|v tl IH]; simpl; intros a f c a' f' c' E I.
  - now inversion E; subst.
  - destruct v as [| |b]; try discriminate.
    pose proof (_collideSolidBox_inv env m a b I) as I1.
    destruct (Actor._collideSolidBox env m a b) as [a1 r]. eauto.
Qed.

Lemma inv_maybe_startFalling (f : bool) a :
  grounded_no_jumps a -> grounded_no_jumps (if f then Actor.startFalling a else a).
Proof. destruct f; [intros _; apply inv_startFalling|auto]. Qed.

Lemma inv_collideSolid env m o a a' c :
  Actor.collideSolid env m o a = Some (a', c) ->
  grounded_no_jumps a -> grounded_no_jumps a'.
Proof.
  unfold Actor.collideSolid. intros E I.
  destruct o as [b|cl|tm].
  - pose proof (_collideSolidBox_inv env m a b I) as I1.
    destruct (Actor._collideSolidBox env m a b) as [a1 r].
    inversion E; subst. now apply inv_maybe_startFalling.
  - destruct (Actor.collideItems env m _ a _ false) as [[[a1 f1] c1]|] eqn:E1;
      [|discriminate].
    inversion E; subst. eauto using inv_maybe_startFalling, collideItems_inv.
  - destruct (Actor.collideItems env m _ a _ false) as [[[a1 f1] c1]|] eqn:E1;
      [|discriminate].
    inversion E; subst. eauto using inv_maybe_startFalling, collideItems_inv.
Qed.

Create HintDb grounded.
#[local] Hint Resolve inv_move inv_update inv_startFalling inv_stopFalling
  inv_release inv_collideSolid : grounded.

(** C9: [inAir == false] implies [numJumps == 0] for a freshly initialised
    Actor, and [move], [update], [startFalling], [stopFalling],
    [collideSolid], [release] (and [moveOutside], [isMoveAllowed]) keep it:
    in every reachable state an Actor on the ground has a jump count of
    zero. *)
Theorem grounded_has_no_jumps (a : Actor.t) :
  reachable a -> Actor.inAir a = false -> Actor.numJumps a = 0%Z.
Proof.
  intros R. change (grounded_no_jumps a).
  induction R as [env c ox oy ow oh|a a' R IH S].
  - apply inv_fresh.
  - destruct S; eauto using only_box_inv with grounded frame.
Qed.

(** An Actor that jumped and landed is reachable and on the ground. *)
Lemma grounded_has_no_jumps_witness : Actor.numJumps jumped_and_landed = 0%Z.
Proof.
  apply grounded_has_no_jumps; [|reflexivity].
  unfold jumped_and_landed.
  eapply reach_step; [eapply reach_step; [apply reach_init|apply step_move]|].
  apply step_stopFalling.
Defined.

(** *** Landing in [collideSolid] *)

Lemma set_x_cfg a v : Actor.cfg (Actor.set_x a v) = Actor.cfg a.
Proof. reflexivity. Qed.

Lemma checkStanding_cfg env m a b :
  Actor.cfg (fst (Actor.checkStanding env m a b)) = Actor.cfg a.
Proof.
  unfold Actor.checkStanding.
  destruct (Actor.standingOn env _ b); cbv beta iota zeta; cbn [fst];
    now rewrite set_x_cfg, ?stopFalling_cfg, set_x_cfg.
Qed.

Lemma stopMomentum_cfg env a b : Actor.cfg (Actor.stopMomentum env a b) = Actor.cfg a.
Proof.
  unfold Actor.stopMomentum.
  split_ifs; reflexivity.
Qed.

(** One pass of [collideSolid], for given globals and displacement. *)
Section Pass.

Variable env : Env.
Variable m : Actor.moved.

Lemma _collideSolidBox_cfg a b :
  Actor.cfg (fst (Actor._collideSolidBox env m a b)) = Actor.cfg a.
Proof.
  unfold Actor._collideSolidBox.
  pose proof (only_box_cfg _ _ (backOut_only_box a b)) as B.
  destruct (Actor.backOut a b) as [a1 c1]. cbn [fst] in B.
  destruct (Actor.GRAVITY a1); [|exact B].
  pose proof (checkStanding_cfg env m a1 b) as C.
  destruct (Actor.checkStanding env m a1 b) as [a2 f2]. cbn [fst] in *.
  destruct (f2 && c1); rewrite ?stopMomentum_cfg; congruence.
Qed.

Lemma _collideSolidBox_keeps_landed a b :
  landed a -> landed (fst (Actor._collideSolidBox env m a b)).
Proof.
  intros L. unfold Actor._collideSolidBox.
  pose proof (only_box_landed _ _ (backOut_only_box a b) L) as L1.
  destruct (Actor.backOut a b) as [a1 c1]. simpl in L1.
  destruct (Actor.GRAVITY a1); [|exact L1].
  pose proof (checkStanding_landed env m a1 b L1) as L2.
  destruct (Actor.checkStanding env m a1 b) as [a2 f2]. simpl in *.
  destruct (f2 && c1); [now apply stopMomentum_landed|exact L2].
Qed.

Lemma _collideSolidBox_lands (a : Actor.t) b :
  Actor.GRAVITY a = true ->
  Actor.standingOn env (at_last_x m (fst (Actor.backOut a b))) b = true ->
  let r := Actor._collideSolidBox env m a b in
  Actor.falling (snd r) = false /\ landed (fst r).
Proof.
  intros G S. unfold Actor._collideSolidBox.
  pose proof (only_box_cfg _ _ (backOut_only_box a b)) as B.
  destruct (Actor.backOut a b) as [a1 c1]. simpl in *.
  rewrite B, G.
  destruct (checkStanding_cases env m a1 b) as [(_ & F & L)|(F & _)]; [|congruence].
  destruct (Actor.checkStanding env m a1 b) as [a2 f2]. simpl in *.
  subst f2. simpl. auto.
Qed.

Lemma collideItems_keeps_landed items : forall a c a' f' c',
  Actor.collideItems env m items a false c = Some (a', f', c') ->
  landed a -> f' = false /\ landed a'.
Proof.
  induction items as [|v tl IH]; simpl; intros a c a' f' c' E L.
  - inversion E; subst. auto.
  - destruct v as [| |b]; try discriminate.
    pose proof (_collideSolidBox_keeps_landed a b L) as L1.
    destruct (Actor._collideSolidBox env m a b) as [a1 r]. simpl in *. eauto.
Qed.

Lemma collideItems_app pre post : forall a f c,
  Actor.collideItems env m (pre ++ post) a f c =
  match Actor.collideItems env m pre a f c with
  | Some (a1, f1, c1) => Actor.collideItems env m post a1 f1 c1
  | None => None
  end.
Proof.
  induction pre as [|v tl IH]; simpl; intros a f c; [reflexivity|].
  destruct v as [| |b]; try reflexivity.
  destruct (Actor._collideSolidBox env m a b) as [a1 r]. apply IH.
Qed.

Lemma collideItems_flags items : forall a f c,
  Actor.collideItems env m items a f c =
  match Actor.collideItems env m items a true false with
  | Some (a1, f1, c1) => Some (a1, f && f1, c || c1)
  | None => None
  end.
Proof.
  induction items as [|v tl IH]; simpl; intros a f c.
  - now rewrite andb_true_r, orb_false_r.
  - destruct v as [| |b]; try reflexivity.
    destruct (Actor._collideSolidBox env m a b) as [a1 r].
    rewrite (IH a1 (f && Actor.falling r) (c || Actor.collided r)).
    rewrite (IH a1 (Actor.falling r) (Actor.collided r)).
    destruct (Actor.collideItems env m tl a1 true false) as [[[a2 f2] c2]|];
      [|reflexivity].
    simpl. now rewrite andb_assoc, orb_assoc.
Qed.

Lemma collideItems_cfg items : forall a f c a' f' c',
  Actor.collideItems env m items a f c = Some (a', f', c') ->
  Actor.cfg a' = Actor.cfg a.
Proof.
  induction items as [|v tl IH]; simpl; intros a f c a' f' c' E.
  - now inversion E.
  - destruct v as [| |b]; try discriminate.
    pose proof (_collideSolidBox_cfg a b) as C.
    destruct (Actor._collideSolidBox env m a b) as [a1 r]. simpl in C.
    rewrite <- C. eauto.
Qed.

Lemma collideItems_lands pre b post (a : Actor.t) f c a1 a' f' c' :
  Actor.GRAVITY a = true ->
  state_before env m pre a = Some a1 ->
  Actor.standingOn env (at_last_x m (fst (Actor.backOut a1 b))) b = true ->
  Actor.collideItems env m (pre ++ BoxV b :: post) a f c = Some (a', f', c') ->
  f' = false /\ landed a'.
Proof.
  unfold state_before. intros G SB S E.
  rewrite collideItems_app, collideItems_flags in E.
  destruct (Actor.collideItems env m pre a true false) as [[[a0 f0] c0]|] eqn:P;
    [|discriminate].
  inversion SB; subst a0. simpl in E.
  assert (G1 : Actor.GRAVITY a1 = true).
  { now rewrite (collideItems_cfg _ _ _ _ _ _ _ P). }
  destruct (_collideSolidBox_lands a1 b G1 S) as [F L].
  destruct (Actor._collideSolidBox env m a1 b) as [a2 r]. simpl in *.
  rewrite F, andb_false_r in E.
  eapply collideItems_keeps_landed; eauto.
Qed.

Lemma collideItems_returns items : forall a f c,
  all_boxes items -> exists r, Actor.collideItems env m items a f c = Some r.
Proof.
  induction items as [|v tl IH]; simpl; intros a f c A.
  - eauto.
  - inversion A as [|? ? [b ->] A']; subst.
    destruct (Actor._collideSolidBox env m a b) as [a1 r]. now apply IH.
Qed.

End Pass.

Lemma overlapsX_ext (a a' b : Box) :
  Box.x a == Box.x a' -> Box.width a == Box.width a' ->
  Box.overlapsX a b = Box.overlapsX a' b.
Proof.
  unfold Box.overlapsX. intros HX HW.
  qcases; try reflexivity; lra.
Qed.

Lemma standingOn_ext env (a a' : Actor.t) b :
  Actor.x a == Actor.x a' -> Actor.width a = Actor.width a' ->
  Actor.y a = Actor.y a' -> Actor.height a = Actor.height a' ->
  Actor.standingOn env a b = Actor.standingOn env a' b.
Proof.
  unfold Actor.standingOn, Actor.x, Actor.width. intros HX HW HY HH.
  rewrite HY, HH. f_equal. apply overlapsX_ext; [exact HX|now rewrite HW].
Qed.

Lemma stopMomentum_box env a b : Actor.box (Actor.stopMomentum env a b) = Actor.box a.
Proof.
  unfold Actor.stopMomentum.
  split_ifs; reflexivity.
Qed.

Lemma startFalling_box a : Actor.box (Actor.startFalling a) = Actor.box a.
Proof.
  unfold Actor.startFalling. destruct (Actor.fallLeft a); [|reflexivity].
  destruct (negb _); reflexivity.
Qed.

Lemma startFalling_cfg a : Actor.cfg (Actor.startFalling a) = Actor.cfg a.
Proof.
  unfold Actor.startFalling. destruct (Actor.fallLeft a); [|reflexivity].
  destruct (negb _); reflexivity.
Qed.

Lemma at_last_x_box m a :
  Actor.box (at_last_x m a) = Box.set_x a (Box.x a - Actor.mx m).
Proof. reflexivity. Qed.

Lemma collideSolid_box_returns env m a b :
  exists a' c, Actor.collideSolid env m (Actor.OBox b) a = Some (a', c).
Proof.
  unfold Actor.collideSolid.
  destruct (Actor._collideSolidBox env m a b) as [a1 r]. eauto.
Qed.

(** A single Box that was not stood on: the Actor ends where backing out
    left it, up to the round trip [x - moved.x + moved.x]. *)
Lemma collideSolid_box_not_standing env m (a : Actor.t) b a' c :
  Actor.GRAVITY a = true ->
  Actor.collideSolid env m (Actor.OBox b) a = Some (a', c) ->
  Actor.standingOn env (at_last_x m (fst (Actor.backOut a b))) b = false ->
  Actor.standingOn env (at_last_x m a') b = false.
Proof.
  unfold Actor.collideSolid, Actor._collideSolidBox. intros G E S.
  pose proof (only_box_cfg _ _ (backOut_only_box a b)) as B.
  destruct (Actor.backOut a b) as [a1 c1]. cbn [fst] in *.
  rewrite B, G in E.
  destruct (checkStanding_cases env m a1 b) as [(F & _)|(_ & F & P)]; [congruence|].
  destruct (Actor.checkStanding env m a1 b) as [a2 f2]. cbn [fst snd] in *.
  subst f2. cbn [andb Actor.falling Actor.collided] in E.
  injection E as Ea Ec. clear Ec.
  assert (Hb : Actor.box a' = Actor.box a2).
  { rewrite <- Ea, startFalling_box. destruct c1; [apply stopMomentum_box|reflexivity]. }
  assert (Hb1 : Actor.box a2 = Box.set_x a1 (Actor.x a1 - Actor.mx m + Actor.mx m)).
  { rewrite P. reflexivity. }
  rewrite <- S. apply standingOn_ext;
    unfold Actor.x, Actor.y, Actor.width, Actor.height;
    rewrite !at_last_x_box, Hb, Hb1; simpl; try reflexivity.
  unfold Actor.x. lra.
Qed.

(** C3, amended: let gravity be enabled.  For a single Box,
    [collideSolid] returns, and if the returned Actor, put back at its last
    X-position ([x - moved.x]), stands on the Box (X-projections overlap and
    bottom within 1 of the top), then [isInAir()] is false and the vertical
    speed is at most 0.  For any obstacle: if the standing check that
    [collideSolid] makes for one of the items, at the last X-position right
    after backing out of that item, succeeds, and the remaining items are
    Boxes, then [collideSolid] returns with [isInAir()] false and the
    vertical speed at most 0. *)
Theorem collideSolid_lands env m (a : Actor.t) :
  Actor.GRAVITY a = true ->
  (forall b, exists a' c,
      Actor.collideSolid env m (Actor.OBox b) a = Some (a', c) /\
      (Actor.standingOn env (at_last_x m a') b = true ->
       Actor.isInAir a' = false /\ Actor.speed a' <= 0)) /\
  (forall o pre b post a1,
      Actor.obstacle_items o = pre ++ BoxV b :: post ->
      state_before env m pre a = Some a1 ->
      Actor.standingOn env (at_last_x m (fst (Actor.backOut a1 b))) b = true ->
      all_boxes post ->
      exists a' c,
        Actor.collideSolid env m o a = Some (a', c) /\
        Actor.isInAir a' = false /\ Actor.speed a' <= 0).
Proof.
  intros G. split.
  - intros b. destruct (collideSolid_box_returns env m a b) as (a' & c & E).
    exists a', c. split; [exact E|]. intros S.
    destruct (Actor.standingOn env (at_last_x m (fst (Actor.backOut a b))) b) eqn:T.
    + destruct (_collideSolidBox_lands env m a b G T) as [F L].
      unfold Actor.collideSolid in E.
      destruct (Actor._collideSolidBox env m a b) as [a2 r]. cbn [fst snd] in *.
      rewrite F in E. injection E as <- _. unfold Actor.isInAir, landed in *. tauto.
    + rewrite (collideSolid_box_not_standing env m a b a' c G E T) in S. discriminate.
  - intros o pre b post a1 I SB S A.
    assert (L : forall f c0 r, Actor.collideItems env m (pre ++ BoxV b :: post) a f c0 = Some r ->
                snd (fst r) = false /\ landed (fst (fst r))).
    { intros f c0 [[a2 f2] c2] E. cbn [fst snd].
      eapply collideItems_lands; eauto. }
    assert (R : forall f c0, exists r,
                Actor.collideItems env m (pre ++ BoxV b :: post) a f c0 = Some r).
    { intros f c0. rewrite collideItems_app. unfold state_before in SB.
      rewrite collideItems_flags.
      destruct (Actor.collideItems env m pre a true false) as [[[a0 f0] c1]|];
        [|discriminate].
      apply collideItems_returns. constructor; eauto. }
    unfold Actor.collideSolid. destruct o as [b0|cl|tm].
    + simpl in I. destruct pre as [|v [|v' pre]]; try discriminate.
      injection I as Hb Hp. subst b0. unfold state_before in SB. simpl in SB.
      injection SB as Ha. subst a1.
      destruct (_collideSolidBox_lands env m a b G S) as [F L0].
      destruct (Actor._collideSolidBox env m a b) as [a2 r]. cbn [fst snd] in *.
      rewrite F. exists a2, (Actor.collided r).
      unfold Actor.isInAir, landed in *. tauto.
    + rewrite I.
      destruct (R (Actor.GRAVITY a && (Q_neq (Actor.y a + Actor.height a) (world_height (world env))
                                      || negb (Actor.STAY_IN_WORLD a))) false)
        as [[[a2 f2] c2] E].
      rewrite E. destruct (L _ _ _ E) as [F L0]. cbn [fst snd] in *. subst f2.
      exists a2, c2. unfold Actor.isInAir, landed in *. tauto.
    + rewrite I.
      destruct (R (Actor.GRAVITY a && (Q_neq (Actor.y a + Actor.height a) (world_height (world env))
                                      || negb (Actor.STAY_IN_WORLD a))) false)
        as [[[a2 f2] c2] E].
      rewrite E. destruct (L _ _ _ E) as [F L0]. cbn [fst snd] in *. subst f2.
      exists a2, c2. unfold Actor.isInAir, landed in *. tauto.
Qed.

(** C3 as the spec states it fails in three ways, whichever way "within
    epsilon" is read.  After a horizontal move the Actor can end over a
    Box, within 1 of its top, and be in the air; a rising Actor that is
    found standing keeps its negative speed; and in a Collection an item
    handled earlier can be the one the Actor ends up over, which leaves it
    in the air. *)
Lemma collideSolid_standing_counterexamples :
  standing_but_not_landed env0 /\ standing_but_not_landed env_strict.
Proof. vm_compute. repeat split; reflexivity. Qed.

(** The hopper over the ledge meets the hypothesis of C3. *)
Lemma collideSolid_lands_witness :
  exists a' c,
    Actor.collideSolid env0 (Actor.mkMoved 0 0) (Actor.OBox ledge) hopper = Some (a', c) /\
    (Actor.standingOn env0 (at_last_x (Actor.mkMoved 0 0) a') ledge = true ->
     Actor.isInAir a' = false /\ Actor.speed a' <= 0).
Proof.
  exact (proj1 (collideSolid_lands env0 (Actor.mkMoved 0 0) hopper eq_refl) ledge).
Defined.

(** ** Jumping *)

(** The guard of the code says what the spec's conditions say, with the
    room above the Actor added and the delay strict. *)
Lemma jumps_true_iff env now d (a : Actor.t) :
  jumps env now d a = true <->
  Actor.GRAVITY a = true /\ jump_input env d a /\ headroom env a /\
  multi_jump_ok a /\ (Actor.JUMP_DELAY a < now - Actor.lastJump a)%Z /\ release_ok a.
Proof.
  unfold jumps, jump_input, headroom, multi_jump_ok, release_ok,
    Actor.canJump, Actor.jumpReady, Actor.isInAir, Q_ge.
  destruct (keys env) as [k|].
  2:{ split; [discriminate|]. intros (_ & (k & d' & E & _) & _). discriminate. }
  destruct (Actor.chosen_direction d a) as [dd|].
  2:{ split; [discriminate|]. intros (_ & (k' & d' & _ & E & _) & _). discriminate. }
  rewrite !andb_true_iff, !orb_true_iff, !negb_true_iff, Qle_bool_iff.
  rewrite Z.gtb_lt, Z.eqb_eq, Z.gtb_lt.
  split.
  - intros ((((G & U) & H) & C) & (D & R)). repeat split; eauto; tauto.
  - intros (G & (k' & d' & Ek & Ed & U) & H & C & D & R).
    injection Ek as <-. injection Ed as <-. tauto.
Qed.

Lemma jumps_false_same env now d a :
  jumps env now d a = false -> same_jump_state a (fst (Actor.move env now d a)).
Proof.
  intros J. destruct (move_jump_state env now d a) as [_ H]. now rewrite J in H.
Qed.

Lemma jumps_true_jumped env now d a :
  jumps env now d a = true -> jumped now a (fst (Actor.move env now d a)).
Proof.
  intros J. destruct (move_jump_state env now d a) as [_ H]. now rewrite J in H.
Qed.

Lemma too_soon_no_jump env now d (a : Actor.t) :
  (now - Actor.lastJump a <= Actor.JUMP_DELAY a)%Z -> jumps env now d a = false.
Proof.
  intros H. destruct (jumps env now d a) eqn:J; [|reflexivity].
  apply jumps_true_iff in J. lia.
Qed.

(** C6, amended: [move] makes the Actor jump (speed [-JUMP_VEL], jump
    count plus one, in the air, [lastJump] set) whenever gravity is on, a
    jump key is among the directions, the Actor has room to move up
    ([y - moveAmount >= 0] or it need not stay in the world), the
    multi-jump condition holds, more than [JUMP_DELAY] ms have passed since
    the last jump, and the jump key was released if that is required.  When
    one of these fails, with the delay read as "at least [JUMP_DELAY]", the
    jump state is untouched.  After a jump, a second call less than
    [JUMP_DELAY] ms later leaves the vertical speed and the jump count as
    they are. *)
Theorem jump_transition env now d (a : Actor.t) :
  let a' := fst (Actor.move env now d a) in
  (Actor.GRAVITY a = true -> jump_input env d a -> headroom env a ->
   multi_jump_ok a -> (Actor.JUMP_DELAY a < now - Actor.lastJump a)%Z ->
   release_ok a -> jumped now a a') /\
  (~ (Actor.GRAVITY a = true /\ jump_input env d a /\ headroom env a /\
      multi_jump_ok a /\ (Actor.JUMP_DELAY a <= now - Actor.lastJump a)%Z /\
      release_ok a) -> same_jump_state a a') /\
  (forall env2 now2 d2,
     jumped now a a' -> (now2 - now < Actor.JUMP_DELAY a)%Z ->
     same_jump_state a' (fst (Actor.move env2 now2 d2 a'))).
Proof.
  cbv zeta. split; [|split].
  - intros. apply jumps_true_jumped, jumps_true_iff. tauto.
  - intros N. apply jumps_false_same.
    destruct (jumps env now d a) eqn:J; [|reflexivity].
    apply jumps_true_iff in J. exfalso. apply N.
    intuition lia.
  - intros env2 now2 d2 (_ & L & _) D.
    apply jumps_false_same, too_soon_no_jump.
    destruct (move_jump_state env now d a) as [C _].
    rewrite L, C. lia.
Qed.

(** C6 as the spec states it fails: an Actor on the ground less than
    [moveAmount] below the top of the world gets the jump input, meets the
    multi-jump, delay and release conditions, and does not jump. *)
Lemma jump_needs_headroom :
  jump_input env0 (Some ["up"%string]) near_ceiling /\
  multi_jump_ok near_ceiling /\
  (Actor.JUMP_DELAY near_ceiling <= 1000 - Actor.lastJump near_ceiling)%Z /\
  release_ok near_ceiling /\
  same_jump_state near_ceiling
    (fst (Actor.move env0 1000 (Some ["up"%string]) near_ceiling)).
Proof.
  split; [|split; [|split; [|split]]].
  - exists keys0, ["up"%string]. repeat split.
  - left. reflexivity.
  - vm_compute. discriminate.
  - left. reflexivity.
  - vm_compute. repeat split.
Qed.

(** The hopper meets the conditions of C6 and jumps. *)
Lemma jump_transition_witness :
  jumped 1000 hopper (fst (Actor.move env0 1000 (Some ["up"%string]) hopper)).
Proof.
  apply (proj1 (jump_transition env0 1000 (Some ["up"%string]) hopper)).
  - reflexivity.
  - exists keys0, ["up"%string]. repeat split.
  - left. vm_compute. discriminate.
  - left. reflexivity.
  - vm_compute. reflexivity.
  - left. reflexivity.
Defined.

(** *** One jump in the air with MULTI_JUMP = 1 *)

Lemma airborne_one_jump_stays env now d (a : Actor.t) :
  Actor.MULTI_JUMP a = 1%Z -> Actor.inAir a = true -> Actor.numJumps a = 1%Z ->
  same_jump_state a (fst (Actor.move env now d a)).
Proof.
  intros M I N. apply jumps_false_same.
  destruct (jumps env now d a) eqn:J; [|reflexivity].
  apply jumps_true_iff in J. destruct J as (_ & _ & _ & [C|[C|C]] & _); [congruence|lia|lia].
Qed.

Lemma moves_one_jump_stays attempts : forall (a : Actor.t),
  Actor.MULTI_JUMP a = 1%Z -> Actor.inAir a = true -> Actor.numJumps a = 1%Z ->
  same_jump_state a (moves attempts a).
Proof.
  induction attempts as [|[[env now] d] tl IH]; intros a M I N; simpl.
  - unfold same_jump_state. auto.
  - destruct (airborne_one_jump_stays env now d a M I N) as (S1 & L1 & N1 & I1).
    destruct (move_jump_state env now d a) as [C _].
    destruct (IH (fst (Actor.move env now d a))) as (S2 & L2 & N2 & I2);
      try congruence.
    unfold same_jump_state. repeat split; congruence.
Qed.

(** C4, amended: with gravity and [MULTI_JUMP = 1], an Actor on the ground
    with a jump count of 0 that makes a jump attempt meeting the input,
    room, delay and release conditions gets speed [-JUMP_VEL] and a jump
    count of 1; every later call of [move], whatever its directions and
    time, is rejected while the Actor has not landed: the jump count stays
    1 and the speed and [lastJump] are not set again. *)
Theorem multi_jump_one env now d (a : Actor.t) :
  Actor.GRAVITY a = true -> Actor.MULTI_JUMP a = 1%Z ->
  Actor.inAir a = false -> Actor.numJumps a = 0%Z ->
  jump_input env d a -> headroom env a ->
  (Actor.JUMP_DELAY a < now - Actor.lastJump a)%Z -> release_ok a ->
  let a1 := fst (Actor.move env now d a) in
  (Actor.speed a1 = - Actor.JUMP_VEL a /\ Actor.numJumps a1 = 1%Z /\
   Actor.inAir a1 = true) /\
  (forall attempts,
     let a2 := moves attempts a1 in
     Actor.numJumps a2 = 1%Z /\ Actor.speed a2 = Actor.speed a1 /\
     Actor.lastJump a2 = now /\ Actor.inAir a2 = true).
Proof.
  intros G M I N JI H D R. cbv zeta.
  assert (J : jumped now a (fst (Actor.move env now d a))).
  { apply jumps_true_jumped, jumps_true_iff. unfold multi_jump_ok. tauto. }
  destruct (move_jump_state env now d a) as [C _].
  destruct J as (S1 & L1 & N1 & I1). rewrite N in N1. simpl in N1.
  split; [auto|].
  intros attempts.
  destruct (moves_one_jump_stays attempts (fst (Actor.move env now d a)))
    as (S2 & L2 & N2 & I2); try congruence.
  repeat split; congruence.
Qed.

(** C4 as the spec states it fails: after the first jump and one frame of
    gravity, a second attempt that meets the input, room, delay and release
    conditions leaves the jump count at 1 and the speed away from
    [-JUMP_VEL]. *)
Lemma second_jump_rejected :
  jumped 1000 grounded first_jump /\
  Actor.inAir first_jump_rising = true /\
  jump_input env0 (Some ["up"%string]) first_jump_rising /\
  headroom env0 first_jump_rising /\
  (Actor.JUMP_DELAY first_jump_rising < 2000 - Actor.lastJump first_jump_rising)%Z /\
  release_ok first_jump_rising /\
  Actor.numJumps second_attempt = 1%Z /\
  ~ Actor.speed second_attempt == - Actor.JUMP_VEL second_attempt.
Proof.
  split; [|split; [|split; [|split; [|split; [|split; [|split]]]]]].
  - vm_compute. repeat split.
  - reflexivity.
  - exists keys0, ["up"%string]. repeat split.
  - left. vm_compute. discriminate.
  - vm_compute. reflexivity.
  - left. reflexivity.
  - reflexivity.
  - vm_compute. discriminate.
Qed.

(** The Actor on the ground meets the hypotheses of C4. *)
Lemma multi_jump_one_witness :
  Actor.numJumps (moves [(env0, 2000%Z, Some ["up"%string])] first_jump) = 1%Z.
Proof.
  refine (proj1 (proj2 (multi_jump_one env0 1000 (Some ["up"%string]) grounded
                          eq_refl eq_refl eq_refl eq_refl _ _ _ _)
                   [(env0, 2000%Z, Some ["up"%string])])).
  - exists keys0, ["up"%string]. repeat split.
  - left. vm_compute. discriminate.
  - vm_compute. reflexivity.
  - left. reflexivity.
Defined.

(** ** One frame of gravity *)

(** C5 as the spec states it fails: the speed becomes 100, the vertical
    displacement is not 10. *)
Lemma gravity_tick_does_not_move_10 :
  let r := Actor.update env0 0 None airborne in
  Actor.speed (fst r) == 100 /\ ~ Actor.my (snd r) == 10.
Proof. vm_compute. split; [reflexivity|discriminate]. Qed.

Lemma move_no_direction env now direction (a : Actor.t) :
  direction = None \/ direction = Some [] ->
  Actor.CONTINUOUS_MOVEMENT a = false ->
  Actor.move env now direction a = (a, Actor.mkMoved 0 0).
Proof.
  intros D C. unfold Actor.move.
  destruct (keys env); [|reflexivity].
  unfold Actor.chosen_direction. destruct D as [-> | ->]; now rewrite C.
Qed.

(** C5, amended: for an Actor with gravity that is in the air and not
    dragged, with vertical speed 0, [G_CONST = 1000], an elapsed time of
    0.1 s, no direction given and no continuous movement, and the bottom
    inside the world (or no need to stay in it), one [update] gives a
    vertical speed of 100 and a vertical displacement of 0: the step uses
    the speed from before the update; the Actor stays in the air. *)
Theorem gravity_tick env now direction (a : Actor.t) :
  Actor.isBeingDragged a = false ->
  Actor.GRAVITY a = true ->
  Actor.inAir a = true ->
  Actor.speed a == 0 ->
  Actor.G_CONST a == 1000 ->
  lastDelta env == 1 # 10 ->
  direction = None \/ direction = Some [] ->
  Actor.CONTINUOUS_MOVEMENT a = false ->
  Actor.y a + Actor.height a <= world_height (world env) \/
    Actor.STAY_IN_WORLD a = false ->
  let r := Actor.update env now direction a in
  Actor.speed (fst r) == 100 /\
  Actor.my (snd r) == 0 /\
  Actor.y (fst r) == Actor.y a /\
  Actor.inAir (fst r) = true.
Proof.
  intros Dr G I S GC LD D C B. cbv zeta.
  unfold Actor.update. rewrite Dr, (move_no_direction env now direction a D C), G.
  unfold Actor.applyGravity, Actor.isInAir.
  assert (MS : Actor.speed a * lastDelta env == 0) by (rewrite S; ring).
  assert (SP : Actor.speed a + Actor.G_CONST a * lastDelta env == 100)
    by (rewrite S, GC, LD; reflexivity).
  assert (BG : Qle_bool (Actor.y a + Actor.height a + Actor.speed a * lastDelta env)
                 (world_height (world env)) || negb (Actor.STAY_IN_WORLD a) = true).
  { destruct B as [B|B].
    - apply orb_true_iff. left. apply Qle_bool_iff. rewrite MS. lra.
    - rewrite B. apply orb_true_r. }
  fields. rewrite I, BG. cbn [andb].
  split_ifs; fields; repeat split; try assumption; rewrite ?MS; try lra.
Qed.

(** The airborne Actor of the scenario meets the hypotheses of C5. *)
Lemma gravity_tick_witness :
  let r := Actor.update env0 0 None airborne in
  Actor.speed (fst r) == 100 /\ Actor.my (snd r) == 0 /\
  Actor.y (fst r) == Actor.y airborne /\ Actor.inAir (fst r) = true.
Proof.
  apply (gravity_tick env0 0%Z None airborne); try reflexivity.
  - left. reflexivity.
  - left. vm_compute. discriminate.
Defined.

(** ** TileMap *)

(** *** clearAll *)

(** C10: the code at a TileMap of one row and two columns holding one Box:
    [getAll()] after [clearAll()] is not empty, it holds two [undefined]
    entries.  [clearAll] gives [this.grid] fresh rows of holes and writes
    the [null]s into the array named by [grid]. *)
Theorem clearAll_getAll_one_tile :
  TileMap.getAll one_tile =
    [BoxV (Box.mk 10 990 10 10)] /\
  cleared_items one_tile = Some [Undefined; Undefined].
Proof. vm_compute. split; reflexivity. Qed.

Lemma nth_list_update_ne {A} (l : list A) i j v d :
  i <> j -> nth j (TileMap.list_update l i v) d = nth j l d.
Proof.
  revert i j. induction l as [|hd tl IH]; intros [|i] [|j] H; simpl; auto; congruence.
Qed.

Lemma read_holes w h i j :
  TileMap.read (repeat (repeat Undefined h) w) i j = Undefined.
Proof.
  unfold TileMap.read.
  assert (R : forall n k, nth k (repeat Undefined n) Undefined = Undefined).
  { induction n; destruct k; simpl; auto. }
  revert i. induction w as [|w IH]; intros [|i]; simpl; auto.
  - now destruct j.
  - now destruct j.
Qed.

Lemma flat_map_const_seq {A} (v : A) n s :
  flat_map (fun _ : nat => [v]) (seq s n) = repeat v n.
Proof. revert s. induction n; intros s; simpl; [reflexivity|now rewrite IHn]. Qed.

Lemma flat_map_repeat_seq {A} (l : list A) n s :
  flat_map (fun _ : nat => l) (seq s n) = concat (repeat l n).
Proof. revert s. induction n; intros s; simpl; [reflexivity|now rewrite IHn]. Qed.

Lemma concat_repeat_repeat {A} (v : A) h w :
  concat (repeat (repeat v h) w) = repeat v (w * h).
Proof.
  induction w; simpl; [reflexivity|]. now rewrite IHw, repeat_app.
Qed.

Lemma null_rows_some w h : forall g,
  (w <= length g)%nat -> exists g', TileMap.null_rows w h g = Some g'.
Proof.
  induction w as [|w IH]; intros g L; simpl; [eauto|].
  destruct g as [|r g]; simpl in L; [lia|].
  destruct (IH g) as [g' E]; [lia|]. rewrite E. eauto.
Qed.

(** The same for every TileMap: after [clearAll], [getAll] returns one
    [undefined] per cell. *)
Lemma clearAll_leaves_holes (tm : TileMap.t) :
  store_ok tm ->
  cleared_items tm =
    Some (repeat Undefined (TileMap.getRows tm * TileMap.getCols tm)).
Proof.
  intros (GV & TG & RW). unfold cleared_items, TileMap.clearAll.
  set (w := TileMap.getRows tm) in *. set (h := TileMap.getCols tm).
  assert (N : nth (TileMap.grid_var tm) (TileMap.arrays tm ++ [repeat (repeat Undefined h) w]) []
              = TileMap.deref tm (TileMap.grid_var tm)).
  { unfold TileMap.deref. now rewrite app_nth1. }
  rewrite N. destruct (null_rows_some w h _ RW) as [g' E]. rewrite E.
  f_equal. unfold TileMap.getAll, TileMap.getRows, TileMap.getCols, TileMap.deref.
  cbn [TileMap.arrays TileMap.this_grid].
  rewrite nth_list_update_ne by lia.
  rewrite app_nth2, Nat.sub_diag by lia. cbn [nth].
  rewrite repeat_length.
  destruct w as [|w'] eqn:W; [reflexivity|].
  change (match repeat (repeat Undefined h) (S w') with
          | [] => 0%nat
          | r :: _ => length r
          end) with (length (repeat Undefined h)).
  rewrite repeat_length.
  erewrite flat_map_ext.
  2:{ intros i. erewrite flat_map_ext.
      2:{ intros j. rewrite read_holes. cbn [TileMap.non_null]. reflexivity. }
      rewrite flat_map_const_seq. reflexivity. }
  rewrite flat_map_repeat_seq. apply concat_repeat_repeat.
Qed.

Lemma new_store_ok env g cs gs : store_ok (TileMap.new env g cs gs).
Proof. unfold store_ok, TileMap.new, TileMap.getRows, TileMap.deref. simpl. lia. Qed.

(** *** getCellsInRect *)







Lemma Q_lt_iff (a b : Q) : Q_lt a b = true <-> a < b.
Proof.
  unfold Q_lt. rewrite negb_true_iff.
  destruct (Qle_bool_reflect b a) as [H|H]; split; intros; try lra; congruence.
Qed.









(** The rows: the end row is computed from [y - wy + th], where the end
    column uses [wx + tw - x].  A query that is exactly the rectangle of
    the tile in row 1 gets the row range 1 to 0 and finds nothing. *)
Lemma getCellsInRect_lower_row_missed :
  TileMap.getAll stack = [BoxV (Box.mk 10 980 10 10); BoxV (Box.mk 10 990 10 10)] /\
  TileMap._getCellCoordsInRect env0 stack (Some 10) (Some 990) (Some 10) (Some 10) =
    (1, 1, 2, 0)%Z /\
  TileMap.getCellsInRect env0 stack (Some 10) (Some 990) (Some 10) (Some 10) = [].
Proof. vm_compute. repeat split. Qed.

(** * Further properties *)

(** ** Box *)

Lemma overlapsX_sym (a b : Box) : Box.overlapsX a b = Box.overlapsX b a.
Proof. unfold Box.overlapsX. apply andb_comm. Qed.

Lemma overlapsY_sym (a b : Box) : Box.overlapsY a b = Box.overlapsY b a.
Proof. unfold Box.overlapsY. apply andb_comm. Qed.

Lemma overlaps_sym (a b : Box) : Box.overlaps a b = Box.overlaps b a.
Proof. unfold Box.overlaps. now rewrite overlapsX_sym, overlapsY_sym. Qed.

(** X1: [overlaps] does not depend on which Box asks, and two Boxes fail
    to overlap exactly when one lies wholly beyond the other on some axis;
    Boxes that only touch overlap. *)
Theorem overlaps_symmetric_or_apart (a b : Box) :
  Box.overlaps a b = Box.overlaps b a /\
  (Box.overlaps a b = false <-> apart a b).
Proof.
  split.
  - apply overlaps_sym.
  - unfold apart. split.
    + intros H. destruct (Box.overlapsX a b) eqn:EX.
      * destruct (Box.overlapsY a b) eqn:EY.
        -- unfold Box.overlaps in H. rewrite EX, EY in H. discriminate.
        -- unfold Box.overlapsY in EY. qcases; try discriminate; lra.
      * unfold Box.overlapsX in EX. qcases; try discriminate; lra.
    + intros [H|[H|[H|H]]].
      * apply not_overlapsX. lra.
      * apply not_overlapsX. lra.
      * apply not_overlapsY. lra.
      * apply not_overlapsY. lra.
Qed.

(** X2: a Box overlaps itself exactly when neither its width nor its
    height is negative. *)
Theorem overlaps_self (a : Box) :
  Box.overlaps a a = true <-> 0 <= Box.width a /\ 0 <= Box.height a.
Proof.
  rewrite overlaps_iff, overlapsX_iff, overlapsY_iff. split; intros; lra.
Qed.

(** ** collides and Collection *)

Lemma collidesItems_boxes (this : Box) (l : list Box) :
  match collidesItems this (map BoxV l) with
  | Some (Some b) =>
      exists pre post, l = pre ++ b :: post /\ Box.overlaps this b = true /\
                       forall x, In x pre -> Box.overlaps this x = false
  | Some None => forall x, In x l -> Box.overlaps this x = false
  | None => False
  end.
Proof.
  induction l as [|b l IH]; simpl.
  - intros x [].
  - destruct (Box.overlaps this b) eqn:E.
    + exists [], l. repeat split; [exact E|intros x []].
    + destruct (collidesItems this (map BoxV l)) as [[hit|]|].
      * destruct IH as (pre & post & -> & O & N).
        exists (b :: pre), post. repeat split; [exact O|].
        intros x [<-|H]; auto.
      * intros x [<-|H]; auto.
      * exact IH.
Qed.

(** X3: against a Collection, [collides] returns the first item that
    overlaps the Box, no item before it overlaps, and it returns [false]
    exactly when no item overlaps; it never fails.  The Collection's own
    [overlaps(box)], which asks each item instead of the Box, reports an
    overlap exactly when [collides] returns an item. *)
Theorem collides_first_overlap (this : Box) (c : Collection.t) :
  match collides this (Actor.OCollection c) with
  | Some (Some b) =>
      exists pre post, Collection.getAll c = pre ++ b :: post /\
                       Box.overlaps this b = true /\
                       forall x, In x pre -> Box.overlaps this x = false
  | Some None => forall x, In x (Collection.getAll c) -> Box.overlaps this x = false
  | None => False
  end /\
  (Collection.overlaps c this = true <->
   exists b, collides this (Actor.OCollection c) = Some (Some b)).
Proof.
  unfold collides, Actor.obstacle_items, Collection.overlaps, Collection.getAll.
  pose proof (collidesItems_boxes this (Collection.items c)) as H.
  split; [exact H|].
  rewrite existsb_exists.
  destruct (collidesItems this (map BoxV (Collection.items c))) as [[b|]|].
  - destruct H as (pre & post & E & O & _). split; [eauto|].
    intros _. exists b. split.
    + rewrite E. apply in_or_app. right. left. reflexivity.
    + now rewrite overlaps_sym.
  - split.
    + intros (x & I & O). rewrite overlaps_sym in O.
      rewrite (H x I) in O. discriminate.
    + intros (b & E). discriminate.
  - contradiction.
Qed.

Lemma splice_middle (pre : list Box) (b : Box) (suf : list Box) :
  Collection.splice (pre ++ b :: suf) (length pre) = pre ++ suf.
Proof.
  unfold Collection.splice. induction pre as [|a pre IH]; simpl.
  - reflexivity.
  - f_equal. exact IH.
Qed.

Lemma forEach_from_filter (f : Box -> bool) (pre : list Box) :
  forall suf visited,
    Collection.forEach_from f (length pre) (pre ++ suf) visited =
    (filter (fun b => negb (f b)) pre ++ suf, visited ++ rev pre).
Proof.
  induction pre as [|b pre IH] using rev_ind; intros suf visited.
  - simpl. now rewrite app_nil_r.
  - rewrite length_app, Nat.add_comm. simpl.
    rewrite <- app_assoc. simpl.
    rewrite nth_error_app2, Nat.sub_diag by lia. simpl.
    pose proof (splice_middle pre b suf) as S.
    rewrite filter_app, rev_app_distr. simpl.
    destruct (f b); simpl.
    + rewrite S, IH, app_nil_r, <- app_assoc. reflexivity.
    + rewrite IH, <- !app_assoc. reflexivity.
Qed.

(** X4: [forEach(f)] keeps exactly the items for which [f] returns false,
    in their order, and calls [f] once on every item of the Collection,
    from the last to the first: removing while iterating skips nothing and
    visits nothing twice. *)
Theorem forEach_removes_matching (f : Box -> bool) (c : Collection.t) :
  Collection.forEach f c =
  (Collection.mk (filter (fun b => negb (f b)) (Collection.items c)),
   rev (Collection.items c)).
Proof.
  unfold Collection.forEach.
  pose proof (forEach_from_filter f (Collection.items c) [] []) as H.
  rewrite !app_nil_r in H. rewrite H. reflexivity.
Qed.

(** X5: [removeLast] undoes [add]: it returns the item just added and the
    Collection as it was; on an empty Collection it returns [undefined]
    and leaves it empty. *)
Theorem add_removeLast (c : Collection.t) (item : Box) :
  Collection.removeLast (Collection.add c item) = (Some item, c) /\
  Collection.count (Collection.add c item) = S (Collection.count c) /\
  Collection.removeLast (Collection.removeAll c) = (None, Collection.mk []).
Proof.
  unfold Collection.removeLast, Collection.add, Collection.count. simpl.
  rewrite rev_app_distr, length_app. simpl. rewrite rev_involutive.
  destruct c. repeat split. simpl. lia.
Qed.

(** X6: a combined Collection overlaps a Box exactly when one of the two
    Collections does, and it holds the items of the first followed by the
    items of the second. *)
Theorem combine_overlaps (c d : Collection.t) (box : Box) :
  Collection.overlaps (Collection.combine c d) box =
    Collection.overlaps c box || Collection.overlaps d box /\
  Collection.getAll (Collection.combine c d) =
    Collection.getAll c ++ Collection.getAll d /\
  Collection.combine c d = Collection.concat c (Collection.getAll d).
Proof.
  unfold Collection.overlaps, Collection.combine. simpl.
  now rewrite existsb_app.
Qed.

(** ** World *)

(** X7: a Box is partly in the world exactly when it overlaps the
    rectangle of the world, touching included; and a Box of non-negative
    size that is wholly in the world (in view) is also partly in the world
    (in view). *)
Theorem partly_in_world (canvasW canvasH : Q) (w : World) (box : Box) :
  WorldMethods.isInWorld w box true = Box.overlaps box (world_rect w) /\
  (0 <= Box.width box -> 0 <= Box.height box ->
   (WorldMethods.isInWorld w box false = true ->
    WorldMethods.isInWorld w box true = true) /\
   (WorldMethods.isInView canvasW canvasH w box false = true ->
    WorldMethods.isInView canvasW canvasH w box true = true)).
Proof.
  destruct box as [x y bw bh]. destruct w as [W H xo yo].
  unfold WorldMethods.isInWorld, WorldMethods.isInView, Box.overlaps,
    Box.overlapsX, Box.overlapsY, world_rect. simpl.
  split.
  - unfold Q_ge.
    destruct (Qle_bool_reflect 0 (x + bw)), (Qle_bool_reflect x W),
      (Qle_bool_reflect x (0 + W)), (Qle_bool_reflect 0 (y + bh)),
      (Qle_bool_reflect y H), (Qle_bool_reflect y (0 + H));
      simpl; try reflexivity; lra.
  - intros HW HH. rewrite !andb_true_iff. unfold Q_ge, Q_gt.
    rewrite !Q_lt_iff, !negb_true_iff, !Qle_bool_iff.
    split.
    + intros. repeat split; lra.
    + intros (((A & B) & C) & D).
      destruct (Qle_bool_reflect x xo); [discriminate|].
      destruct (Qle_bool_reflect y yo); [discriminate|].
      repeat split; try lra;
        match goal with |- Qle_bool ?a ?b = false =>
          destruct (Qle_bool_reflect a b); [lra|reflexivity] end.
Qed.

Lemma partly_in_world_witness :
  WorldMethods.isInWorld (world env0) (Box.mk 10 10 10 10) true = true.
Proof.
  refine (proj1 (proj2 (partly_in_world 1000 1000 (world env0) (Box.mk 10 10 10 10)) _ _) _);
    vm_compute; congruence.
Defined.

Lemma ToInt32_small (q : Q) :
  0 <= q -> q < inject_Z (2 ^ 31) ->
  (0 <= ToInt32 q)%Z /\ inject_Z (ToInt32 q) <= q /\ q < inject_Z (ToInt32 q) + 1.
Proof.
  intros L U. unfold ToInt32, integer_part.
  destruct (Qle_bool_reflect 0 q) as [_|N]; [|contradiction].
  assert (F0 : (0 <= Qfloor q)%Z).
  { change 0%Z with (Qfloor 0). now apply Qfloor_resp_le. }
  assert (F1 : (Qfloor q < 2 ^ 31)%Z).
  { rewrite Zlt_Qlt. apply Qle_lt_trans with q; [apply Qfloor_le|exact U]. }
  rewrite Z.mod_small by lia.
  replace (Qfloor q + 2 ^ 31 - 2 ^ 31)%Z with (Qfloor q) by lia.
  split; [exact F0|]. split; [apply Qfloor_le|].
  pose proof (Qlt_floor q) as T. rewrite inject_Z_plus in T. exact T.
Qed.

Lemma clamp_bounds (lo hi v : Q) :
  lo <= hi -> lo <= Math_min hi (Math_max lo v) <= hi /\
              (lo <= v <= hi -> Math_min hi (Math_max lo v) == v).
Proof. intros H. qcases; split; intros; lra. Qed.

(** X8: when the world is at least as wide and high as the canvas (and
    the difference is below 2^31), [centerViewportAround] leaves whole
    offsets between 0 and the difference; and when the point is far enough
    from the borders of the world, the left (top) edge of the viewport is
    within one pixel of half a canvas left of (above) the point. *)
Theorem centerViewportAround_in_range (canvasW canvasH : Q) (w : World) (x y : Q) :
  0 <= world_width w - canvasW -> world_width w - canvasW < inject_Z (2 ^ 31) ->
  0 <= world_height w - canvasH -> world_height w - canvasH < inject_Z (2 ^ 31) ->
  let w' := WorldMethods.centerViewportAround canvasW canvasH w x y in
  world_width w' = world_width w /\ world_height w' = world_height w /\
  0 <= xOffset w' <= world_width w - canvasW /\
  0 <= yOffset w' <= world_height w - canvasH /\
  (0 <= x - canvasW / 2 <= world_width w - canvasW ->
   xOffset w' <= x - canvasW / 2 < xOffset w' + 1) /\
  (0 <= y - canvasH / 2 <= world_height w - canvasH ->
   yOffset w' <= y - canvasH / 2 < yOffset w' + 1).
Proof.
  intros WL WU HL HU. cbv zeta. unfold WorldMethods.centerViewportAround. simpl.
  destruct (clamp_bounds 0 (world_width w - canvasW) (x - canvasW / 2) WL) as [BX EX].
  destruct (clamp_bounds 0 (world_height w - canvasH) (y - canvasH / 2) HL) as [BY EY].
  set (cx := Math_min (world_width w - canvasW) (Math_max 0 (x - canvasW / 2))) in *.
  set (cy := Math_min (world_height w - canvasH) (Math_max 0 (y - canvasH / 2))) in *.
  destruct (ToInt32_small cx) as (X0 & X1 & X2); [lra|lra|].
  destruct (ToInt32_small cy) as (Y0 & Y1 & Y2); [lra|lra|].
  rewrite Zle_Qle in X0, Y0. change (inject_Z 0) with 0 in *.
  repeat split; lra.
Qed.

Lemma centerViewportAround_in_range_witness :
  0 <= xOffset (WorldMethods.centerViewportAround 100 100 (world env0) 500 500)
    <= world_width (world env0) - 100.
Proof.
  refine (proj1 (proj2 (proj2
    (centerViewportAround_in_range 100 100 (world env0) 500 500 _ _ _ _))));
    vm_compute; congruence.
Defined.

(** X9: the constructor puts the viewport in the middle of the world,
    [resize] keeps it there, and resizing back restores the offsets. *)
Theorem resize_keeps_centre (canvasW canvasH : Q) (w : World) (n m : Q) :
  (forall ow oh aw ah, centred canvasW canvasH (WorldMethods.new canvasW canvasH ow oh aw ah)) /\
  (centred canvasW canvasH w -> centred canvasW canvasH (WorldMethods.resize w n m)) /\
  (let back := WorldMethods.resize (WorldMethods.resize w n m)
                 (world_width w) (world_height w) in
   world_width back = world_width w /\ world_height back = world_height w /\
   xOffset back == xOffset w /\ yOffset back == yOffset w).
Proof.
  unfold centred, WorldMethods.resize, WorldMethods.new. simpl.
  split; [|split].
  - intros. split; reflexivity.
  - intros [HX HY]. split; [rewrite HX|rewrite HY]; field.
  - repeat split; field.
Qed.

Lemma resize_keeps_centre_witness :
  centred 1000 1000 (WorldMethods.resize (world env0) 2000 3000).
Proof.
  apply (proj1 (proj2 (resize_keeps_centre 1000 1000 (world env0) 2000 3000))).
  vm_compute. split; reflexivity.
Defined.

(** ** TileMap: construction and cells *)

Lemma init_row_length env sx sy cw ch i r : forall j,
  length (TileMap.init_row env sx sy cw ch i j r) = length r.
Proof. induction r as [|o r IH]; intros j; simpl; [reflexivity|now rewrite IH]. Qed.

Lemma init_rows_length env sx sy cw ch g : forall i,
  length (TileMap.init_rows env sx sy cw ch i g) = length g.
Proof. induction g as [|r g IH]; intros i; simpl; [reflexivity|now rewrite IH]. Qed.


Lemma init_rows_nth env sx sy cw ch g : forall i0 i,
  nth_error (TileMap.init_rows env sx sy cw ch i0 g) i =
  match nth_error g i with
  | Some r => Some (TileMap.init_row env sx sy cw ch (i0 + i) O r)
  | None => None
  end.
Proof.
  induction g as [|r g IH]; intros i0 [|i]; simpl; try reflexivity.
  - now rewrite Nat.add_0_r.
  - rewrite IH. now rewrite Nat.add_succ_r.
Qed.

Lemma flat_map_shift {A} (f : nat -> list A) (n : nat) :
  flat_map f (seq 1 n) = flat_map (fun i => f (S i)) (seq 0 n).
Proof.
  rewrite <- seq_shift. generalize (seq 0 n) as l.
  induction l as [|i l IH]; simpl; [reflexivity|now rewrite IH].
Qed.

Lemma row_by_index (r : list value) :
  flat_map (fun j => TileMap.non_null (nth j r Undefined)) (seq 0 (length r)) =
  flat_map TileMap.non_null r.
Proof.
  induction r as [|v r IH]; simpl; [reflexivity|].
  rewrite flat_map_shift. simpl. now rewrite IH.
Qed.

Lemma grid_by_index (h : nat) (G : TileMap.grid) :
  (forall r, In r G -> length r = h) ->
  flat_map (fun i => flat_map (fun j => TileMap.non_null (TileMap.read G i j)) (seq 0 h))
           (seq 0 (length G)) =
  flat_map (flat_map TileMap.non_null) G.
Proof.
  induction G as [|r G IH]; intros R; simpl; [reflexivity|].
  rewrite flat_map_shift. unfold TileMap.read at 1. simpl.
  rewrite <- (R r (or_introl eq_refl)), row_by_index. f_equal.
  rewrite (R r (or_introl eq_refl)). apply IH. intros r' I. apply R. now right.
Qed.

Lemma init_row_tiles env sx sy cw ch i r : forall j,
  length (flat_map TileMap.non_null (TileMap.init_row env sx sy cw ch i j r)) =
  length (filter is_box_class r) /\
  Forall (fun v => exists b, v = BoxV b)
         (flat_map TileMap.non_null (TileMap.init_row env sx sy cw ch i j r)).
Proof.
  induction r as [|o r IH]; intros j; simpl; [split; [reflexivity|constructor]|].
  destruct (IH (S j)) as [L F].
  destruct o; simpl; auto. split; [now rewrite L|]. constructor; eauto.
Qed.

Lemma init_rows_tiles env sx sy cw ch g : forall i,
  length (flat_map (flat_map TileMap.non_null) (TileMap.init_rows env sx sy cw ch i g)) =
  count_box_classes g /\
  Forall (fun v => exists b, v = BoxV b)
         (flat_map (flat_map TileMap.non_null) (TileMap.init_rows env sx sy cw ch i g)).
Proof.
  unfold count_box_classes.
  induction g as [|r g IH]; intros i; simpl; [split; [reflexivity|constructor]|].
  destruct (IH (S i)) as [L F]. destruct (init_row_tiles env sx sy cw ch i r O) as [L1 F1].
  rewrite length_app, filter_app, length_app, L, L1. split; [reflexivity|].
  apply Forall_app. auto.
Qed.

(** X10: a TileMap built from a rectangular 2-D array has the rows and
    columns of the array, and [getAll()] returns one Box per Box template:
    blanks, missing and unsupported templates give no item. *)
Theorem new_getAll_counts env (g : list (list TileMap.source)) (cs : option (Q * Q)) :
  rectangular g ->
  let tm := TileMap.new env g cs None in
  TileMap.getRows tm = length g /\
  TileMap.getCols tm = length (hd [] g) /\
  length (TileMap.getAll tm) = count_box_classes g /\
  all_boxes (TileMap.getAll tm).
Proof.
  intros R. cbv zeta. unfold TileMap.getAll, TileMap.getRows, TileMap.getCols,
    TileMap.new, TileMap.deref. simpl.
  set (cw := fst match cs with Some c => c | None => _ end).
  set (ch := snd match cs with Some c => c | None => _ end).
  set (sy := world_height (world env) - ch * inject_Z (Z.of_nat (length g))).
  rewrite init_rows_length.
  assert (C : match TileMap.init_rows env 0 sy cw ch 0 g with
              | [] => 0%nat
              | r :: _ => length r
              end = length (hd [] g)).
  { destruct g as [|r g]; simpl; [reflexivity|apply init_row_length]. }
  rewrite C. split; [reflexivity|]. split; [reflexivity|].
  pose proof (grid_by_index (length (hd [] g))
                (TileMap.init_rows env 0 sy cw ch 0 g)) as GI.
  rewrite init_rows_length in GI. rewrite GI.
  - apply init_rows_tiles.
  - intros r I. apply In_nth_error in I. destruct I as [i I].
    rewrite init_rows_nth in I. destruct (nth_error g i) as [r0|] eqn:E; [|discriminate].
    injection I as <-. rewrite init_row_length. apply R. eapply nth_error_In, E.
Qed.

Lemma new_getAll_counts_witness :
  length (TileMap.getAll shelf) = 2%nat.
Proof.
  refine (proj1 (proj2 (proj2 (new_getAll_counts env0
    [[TileMap.SNull; TileMap.SBoxClass; TileMap.SBoxClass]] (Some (10, 10)) _)))).
  intros r [<-|[]]. reflexivity.
Defined.






Lemma nth_list_update_eq {A} (l : list A) i v d :
  (i < length l)%nat -> nth i (TileMap.list_update l i v) d = v.
Proof.
  revert i. induction l as [|hd tl IH]; intros [|i] H; simpl in *; try lia; auto.
  apply IH. lia.
Qed.

Lemma list_update_length {A} (l : list A) i v :
  length (TileMap.list_update l i v) = length l.
Proof. revert i. induction l as [|hd tl IH]; intros [|i]; simpl; auto. Qed.

Lemma nth_error_list_update {A} (l : list A) i j v :
  nth_error (TileMap.list_update l i v) j =
  if Nat.eqb i j then match nth_error l j with Some _ => Some v | None => None end
  else nth_error l j.
Proof.
  revert i j. induction l as [|hd tl IH]; intros i j.
  - simpl. destruct (Nat.eqb i j), j; reflexivity.
  - destruct i, j; simpl; auto.
Qed.

Lemma array_set_nth (r : list value) j k v :
  (j < length r)%nat ->
  nth k (TileMap.array_set r j v) Undefined =
  if Nat.eqb j k then v else nth k r Undefined.
Proof.
  revert j k. induction r as [|hd tl IH]; intros [|j] [|k] H; simpl in *; try lia; auto.
  apply IH. lia.
Qed.

Lemma array_set_length (r : list value) j v :
  (j < length r)%nat -> length (TileMap.array_set r j v) = length r.
Proof.
  revert j. induction r as [|hd tl IH]; intros [|j] H; simpl in *; try lia; auto.
  rewrite IH; lia.
Qed.

Lemma nth_defined_in_range (r : list value) j :
  nth j r Undefined <> Undefined -> (j < length r)%nat.
Proof.
  intros H. destruct (Nat.lt_ge_cases j (length r)) as [L|G]; [exact L|].
  rewrite nth_overflow in H by exact G. contradiction.
Qed.

Lemma setCell_cell (tm : TileMap.t) (row col : nat) (obj : value) :
  (TileMap.this_grid tm < length (TileMap.arrays tm))%nat ->
  (TileMap.getCell tm row col = Undefined -> TileMap.setCell tm row col obj = tm) /\
  (TileMap.getCell tm row col <> Undefined ->
   let tm' := TileMap.setCell tm row col obj in
   TileMap.getCell tm' row col = obj /\
   (forall r c, (r, c) <> (row, col) -> TileMap.getCell tm' r c = TileMap.getCell tm r c) /\
   TileMap.getRows tm' = TileMap.getRows tm /\
   TileMap.getCols tm' = TileMap.getCols tm).
Proof.
  intros S. unfold TileMap.getCell, TileMap.setCell.
  destruct (nth_error (TileMap.deref tm (TileMap.this_grid tm)) row) as [rw|] eqn:E.
  2:{ split; [reflexivity|]. intros N. contradiction. }
  split.
  - intros ->. reflexivity.
  - intros N. cbv zeta.
    assert (W : match nth col rw Undefined with
                | Undefined => tm
                | _ => TileMap.write_this tm row col obj
                end = TileMap.write_this tm row col obj).
    { destruct (nth col rw Undefined); [contradiction|reflexivity|reflexivity]. }
    rewrite W. clear W.
    pose proof (nth_defined_in_range rw col N) as C.
    assert (RW : nth row (TileMap.deref tm (TileMap.this_grid tm)) [] = rw).
    { now apply nth_error_nth. }
    assert (G' : TileMap.deref (TileMap.write_this tm row col obj)
                   (TileMap.this_grid (TileMap.write_this tm row col obj)) =
                 TileMap.list_update (TileMap.deref tm (TileMap.this_grid tm)) row
                   (TileMap.array_set rw col obj)).
    { unfold TileMap.write_this, TileMap.deref at 1. simpl.
      rewrite nth_list_update_eq by exact S. now rewrite RW. }
    unfold TileMap.getRows, TileMap.getCols. rewrite G'.
    repeat split.
    + rewrite nth_error_list_update, Nat.eqb_refl, E.
      now rewrite array_set_nth, Nat.eqb_refl.
    + intros r c D. rewrite nth_error_list_update.
      destruct (Nat.eqb_spec row r) as [<-|NE]; [|reflexivity].
      rewrite E, array_set_nth by exact C.
      destruct (Nat.eqb_spec col c) as [<-|NC]; [congruence|reflexivity].
    + apply list_update_length.
    + destruct (TileMap.deref tm (TileMap.this_grid tm)) as [|r0 g0]; [reflexivity|].
      destruct row; simpl; [|reflexivity].
      simpl in E. injection E as ->. now apply array_set_length.
Qed.

(** X12: [setCell] on a cell outside the grid, or on a cell that reads as
    [undefined], changes nothing.  On any other cell it stores the
    object: [getCell] then returns it, every other cell reads as before,
    and the numbers of rows and columns stay the same. *)
Theorem setCell_getCell (tm : TileMap.t) (row col : nat) (obj : value) :
  (TileMap.this_grid tm < length (TileMap.arrays tm))%nat ->
  (TileMap.getCell tm row col = Undefined -> TileMap.setCell tm row col obj = tm) /\
  (TileMap.getCell tm row col <> Undefined ->
   let tm' := TileMap.setCell tm row col obj in
   TileMap.getCell tm' row col = obj /\
   (forall r c, (r, c) <> (row, col) -> TileMap.getCell tm' r c = TileMap.getCell tm r c) /\
   TileMap.getRows tm' = TileMap.getRows tm /\
   TileMap.getCols tm' = TileMap.getCols tm).
Proof. exact (setCell_cell tm row col obj). Qed.

Lemma setCell_getCell_witness :
  TileMap.getCell (TileMap.setCell shelf 0 0 (BoxV solid_at_5)) 0 0 = BoxV solid_at_5.
Proof.
  refine (proj1 (proj2 (setCell_getCell shelf 0 0 (BoxV solid_at_5) _) _)).
  - vm_compute. lia.
  - vm_compute. discriminate.
Defined.

Lemma clearAll_fresh_grid (tm : TileMap.t) :
  store_ok tm ->
  exists tm', TileMap.clearAll tm = Some tm' /\
    (TileMap.this_grid tm' < length (TileMap.arrays tm'))%nat /\
    TileMap.deref tm' (TileMap.this_grid tm') =
      repeat (repeat Undefined (TileMap.getCols tm)) (TileMap.getRows tm).
Proof.
  intros (GV & TG & RW). unfold TileMap.clearAll.
  set (w := TileMap.getRows tm) in *. set (h := TileMap.getCols tm).
  assert (N : nth (TileMap.grid_var tm) (TileMap.arrays tm ++ [repeat (repeat Undefined h) w]) []
              = TileMap.deref tm (TileMap.grid_var tm)).
  { unfold TileMap.deref. now rewrite app_nth1. }
  rewrite N. destruct (null_rows_some w h _ RW) as [g' E]. rewrite E.
  eexists. split; [reflexivity|]. unfold TileMap.deref. simpl.
  rewrite list_update_length, length_app. simpl. split; [lia|].
  rewrite nth_list_update_ne by lia.
  now rewrite app_nth2, Nat.sub_diag by lia.
Qed.

Lemma nth_holes (h k : nat) : nth k (repeat Undefined h) Undefined = Undefined.
Proof. revert k. induction h; destruct k; simpl; auto. Qed.

Lemma isMoveAllowedItems_holes (n : nat) fix_ a m :
  Actor.isMoveAllowedItems fix_ a m (repeat Undefined n) = (true, a, m).
Proof. induction n; simpl; auto. Qed.

(** X13: after [clearAll] on a TileMap with at least one cell, the map
    has its rows and columns, but every cell is a hole: [setCell] and
    [clearCell] change nothing any more, [collideSolid] and [collides]
    against the map raise a TypeError, and [isMoveAllowed] allows every
    move. *)
Theorem clearAll_leaves_unusable_map (tm : TileMap.t) :
  store_ok tm -> (0 < TileMap.getRows tm * TileMap.getCols tm)%nat ->
  exists tm',
    TileMap.clearAll tm = Some tm' /\
    TileMap.getRows tm' = TileMap.getRows tm /\
    TileMap.getCols tm' = TileMap.getCols tm /\
    (forall r c obj, TileMap.setCell tm' r c obj = tm') /\
    (forall r c, TileMap.clearCell tm' r c = tm') /\
    (forall env m a, Actor.collideSolid env m (Actor.OTileMap tm') a = None) /\
    (forall box, collides box (Actor.OTileMap tm') = None) /\
    (forall m fix_ a, Actor.isMoveAllowed m (Actor.OTileMap tm') fix_ a = (true, a, m)).
Proof.
  intros S P. destruct (clearAll_fresh_grid tm S) as (tm' & E & T & G).
  pose proof (clearAll_leaves_holes tm S) as H. unfold cleared_items in H.
  rewrite E in H. injection H as H.
  exists tm'. split; [exact E|].
  assert (R : TileMap.getRows tm' = TileMap.getRows tm).
  { unfold TileMap.getRows at 1. now rewrite G, repeat_length. }
  assert (C : TileMap.getCols tm' = TileMap.getCols tm).
  { unfold TileMap.getCols at 1. rewrite G.
    destruct (TileMap.getRows tm); [lia|]. simpl. apply repeat_length. }
  assert (SC : forall r c obj, TileMap.setCell tm' r c obj = tm').
  { intros r c obj. apply (proj1 (setCell_cell tm' r c obj T)).
    unfold TileMap.getCell. rewrite G.
    destruct (nth_error (repeat (repeat Undefined (TileMap.getCols tm)) (TileMap.getRows tm)) r)
      as [rw|] eqn:N; [|reflexivity].
    apply nth_error_In, repeat_spec in N. subst rw. apply nth_holes. }
  repeat split; auto.
  - intros r c. apply SC.
  - intros env m a. unfold Actor.collideSolid. simpl. rewrite H.
    destruct (TileMap.getRows tm * TileMap.getCols tm)%nat; [lia|reflexivity].
  - intros box. unfold collides. simpl. rewrite H.
    destruct (TileMap.getRows tm * TileMap.getCols tm)%nat; [lia|reflexivity].
  - intros m fix_ a. unfold Actor.isMoveAllowed. simpl. rewrite H.
    apply isMoveAllowedItems_holes.
Qed.

Lemma clearAll_leaves_unusable_map_witness :
  exists tm', TileMap.clearAll one_tile = Some tm' /\ TileMap.getRows tm' = 1%nat.
Proof.
  destruct (clearAll_leaves_unusable_map one_tile) as (tm' & E & R & _).
  - apply new_store_ok.
  - vm_compute. lia.
  - exists tm'. split; [exact E|exact R].
Defined.

Lemma ceiling_ge (q : Q) (n : nat) :
  inject_Z (Z.of_nat n) <= q -> (Z.of_nat n <= Qceiling q)%Z.
Proof.
  intros H. rewrite Zle_Qle. apply Qle_trans with q; [exact H|apply Qle_ceiling].
Qed.

Lemma le_div (a c : Q) (n : nat) :
  0 < c -> inject_Z (Z.of_nat n) * c <= a -> inject_Z (Z.of_nat n) <= a / c.
Proof. intros C H. apply Qle_shift_div_l; assumption. Qed.

(** X14: a query rectangle that starts at the origin of the map and is at
    least as wide and as high as the whole grid returns what [getAll()]
    returns. *)
Theorem getCellsInRect_whole_map env (tm : TileMap.t) (w h : Q) :
  0 < fst (TileMap.cellSize tm) -> 0 < snd (TileMap.cellSize tm) ->
  inject_Z (Z.of_nat (TileMap.getCols tm)) * fst (TileMap.cellSize tm) <= w ->
  inject_Z (Z.of_nat (TileMap.getRows tm)) * snd (TileMap.cellSize tm) <= h ->
  TileMap.getCellsInRect env tm (Some (fst (TileMap.startCoords tm)))
                         (Some (snd (TileMap.startCoords tm))) (Some w) (Some h) =
  TileMap.getAll tm.
Proof.
  intros CW CH W H.
  unfold TileMap.getCellsInRect, TileMap._getCellCoordsInRect, TileMap.getAll,
    Math_floor, Math_ceil.
  set (ox := fst (TileMap.startCoords tm)). set (oy := snd (TileMap.startCoords tm)).
  set (cw := fst (TileMap.cellSize tm)) in *. set (ch := snd (TileMap.cellSize tm)) in *.
  assert (F0 : forall o c, Qfloor ((o - o) / c) = 0%Z).
  { intros o c. change 0%Z with (Qfloor 0). apply Qfloor_comp.
    unfold Qdiv. setoid_replace (o - o) with 0 by ring. ring. }
  assert (CX : (Z.of_nat (TileMap.getCols tm) <= Qceiling ((ox + w - ox) / cw))%Z).
  { apply ceiling_ge, le_div; [exact CW|]. lra. }
  assert (CY : (Z.of_nat (TileMap.getRows tm) <= Qceiling ((oy - oy + h) / ch))%Z).
  { apply ceiling_ge, le_div; [exact CH|]. lra. }
  rewrite !F0. unfold TileMap.clamp, TileMap.range.
  replace (Z.to_nat (Z.min (Z.of_nat (TileMap.getRows tm)) (Z.max 0 0))) with 0%nat by lia.
  replace (Z.to_nat (Z.min (Z.of_nat (TileMap.getCols tm)) (Z.max 0 0))) with 0%nat by lia.
  replace (Z.to_nat (Z.min (Z.of_nat (TileMap.getRows tm))
                       (Z.max 0 (Qceiling ((oy - oy + h) / ch))) -
                     Z.min (Z.of_nat (TileMap.getRows tm)) (Z.max 0 0)))
    with (TileMap.getRows tm) by lia.
  replace (Z.to_nat (Z.min (Z.of_nat (TileMap.getCols tm))
                       (Z.max 0 (Qceiling ((ox + w - ox) / cw))) -
                     Z.min (Z.of_nat (TileMap.getCols tm)) (Z.max 0 0)))
    with (TileMap.getCols tm) by lia.
  reflexivity.
Qed.

Lemma getCellsInRect_whole_map_witness :
  TileMap.getCellsInRect env0 shelf (Some (fst (TileMap.startCoords shelf)))
    (Some (snd (TileMap.startCoords shelf))) (Some 30) (Some 10) =
  TileMap.getAll shelf.
Proof.
  apply (getCellsInRect_whole_map env0 shelf 30 10); vm_compute; congruence.
Defined.

(** ** TileMap.forEach *)

Lemma read_getCell (tm : TileMap.t) (i j : nat) :
  TileMap.read (TileMap.deref tm (TileMap.this_grid tm)) i j = TileMap.getCell tm i j.
Proof.
  unfold TileMap.read, TileMap.getCell.
  destruct (nth_error (TileMap.deref tm (TileMap.this_grid tm)) i) as [r|] eqn:E.
  - now rewrite (nth_error_nth _ _ _ E).
  - apply nth_error_None in E. rewrite (nth_overflow _ _ E). now destruct j.
Qed.

Lemma setCell_store (tm : TileMap.t) (i j : nat) (obj : value) :
  (TileMap.this_grid tm < length (TileMap.arrays tm))%nat ->
  (TileMap.this_grid (TileMap.setCell tm i j obj) <
   length (TileMap.arrays (TileMap.setCell tm i j obj)))%nat.
Proof.
  intros S. unfold TileMap.setCell.
  destruct (nth_error _ i); [|exact S].
  destruct (nth j l Undefined); try exact S;
    unfold TileMap.write_this; simpl; now rewrite list_update_length.
Qed.

Lemma forEach_cells_clears (f : value -> nat -> nat -> bool) (ijs : list (nat * nat)) :
  forall tm,
    NoDup ijs ->
    (TileMap.this_grid tm < length (TileMap.arrays tm))%nat ->
    (forall i j, In (i, j) ijs -> TileMap.getCell tm i j <> Undefined) ->
    exists tm',
      TileMap.forEach_cells f false ijs tm = Some tm' /\
      TileMap.getRows tm' = TileMap.getRows tm /\
      TileMap.getCols tm' = TileMap.getCols tm /\
      forall i j,
        TileMap.getCell tm' i j =
        if in_dec pair_eq_dec (i, j) ijs
        then cleared_by f (TileMap.getCell tm i j) i j
        else TileMap.getCell tm i j.
Proof.
  induction ijs as [|[i j] tl IH]; intros tm ND S D.
  - exists tm. simpl. auto.
  - inversion ND as [|? ? NI ND']; subst.
    assert (Dij : TileMap.getCell tm i j <> Undefined) by (apply D; now left).
    simpl TileMap.forEach_cells. unfold TileMap.forEach_cell.
    rewrite read_getCell, orb_false_r.
    assert (K : forall tm1,
      (TileMap.this_grid tm1 < length (TileMap.arrays tm1))%nat ->
      TileMap.getRows tm1 = TileMap.getRows tm ->
      TileMap.getCols tm1 = TileMap.getCols tm ->
      TileMap.getCell tm1 i j = cleared_by f (TileMap.getCell tm i j) i j ->
      (forall r c, (r, c) <> (i, j) -> TileMap.getCell tm1 r c = TileMap.getCell tm r c) ->
      exists tm',
        TileMap.forEach_cells f false tl tm1 = Some tm' /\
        TileMap.getRows tm' = TileMap.getRows tm /\
        TileMap.getCols tm' = TileMap.getCols tm /\
        forall r c,
          TileMap.getCell tm' r c =
          if in_dec pair_eq_dec (r, c) ((i, j) :: tl)
          then cleared_by f (TileMap.getCell tm r c) r c
          else TileMap.getCell tm r c).
    { intros tm1 S1 R1 C1 Hij Hother.
      destruct (IH tm1 ND' S1) as (tm' & E & R & C & G).
      - intros r c I. rewrite Hother; [apply D; now right|].
        intros X. injection X as -> ->. contradiction.
      - exists tm'. split; [exact E|]. split; [congruence|]. split; [congruence|].
        intros r c. rewrite G.
        destruct (in_dec pair_eq_dec (r, c) ((i, j) :: tl)) as [[X|I]|N].
        + injection X as <- <-.
          destruct (in_dec pair_eq_dec (i, j) tl); [contradiction|exact Hij].
        + destruct (in_dec pair_eq_dec (r, c) tl); [|contradiction].
          rewrite Hother; [reflexivity|].
          intros X. injection X as -> ->. contradiction.
        + destruct (in_dec pair_eq_dec (r, c) tl) as [I|_].
          * exfalso. apply N. now right.
          * apply Hother. intros X. apply N. left. now symmetry. }
    destruct (TileMap.getCell tm i j) as [| |b] eqn:V; [contradiction| |].
    + apply K; auto.
    + destruct (f (BoxV b) i j) eqn:F.
      * unfold TileMap.clearCell.
        destruct (setCell_cell tm i j Null S) as [_ P].
        destruct P as (P1 & P2 & P3 & P4); [congruence|].
        apply K; auto using setCell_store.
        simpl. now rewrite F.
      * apply K; auto. simpl. now rewrite F.
Qed.

Lemma NoDup_list_prod {A B : Type} (l : list A) (l' : list B) :
  NoDup l -> NoDup l' -> NoDup (list_prod l l').
Proof.
  intros Hl Hl'. induction Hl as [|a l Na _ IH]; simpl; [constructor|].
  apply NoDup_app; [| exact IH |].
  - clear IH. induction Hl' as [|b l' Nb _ IH']; simpl; constructor; [|exact IH'].
    intros I. apply in_map_iff in I as (z & E & I). injection E as ->. contradiction.
  - intros [x y] I1 I2. apply in_map_iff in I1 as (z & E & _).
    injection E as <- <-. apply in_prod_iff in I2. tauto.
Qed.

Lemma flat_map_nil_all {A B : Type} (f : A -> list B) (l : list A) :
  (forall x, In x l -> f x = []) -> flat_map f l = [].
Proof.
  induction l as [|a l IH]; simpl; intros H; [reflexivity|].
  rewrite (H a) by now left. apply IH. intros x I. apply H. now right.
Qed.

(** X15: on a TileMap without holes, [forEach(f)] returns, and afterwards
    a cell of the grid is blank where it held a Box that [f] selected and
    is as before everywhere else; the numbers of rows and columns stay.
    With an [f] that selects every tile, [getAll()] is empty afterwards. *)
Theorem forEach_clears_selected (f : value -> nat -> nat -> bool) (tm : TileMap.t) :
  (TileMap.this_grid tm < length (TileMap.arrays tm))%nat ->
  (forall i j, (i < TileMap.getRows tm)%nat -> (j < TileMap.getCols tm)%nat ->
               TileMap.getCell tm i j <> Undefined) ->
  exists tm',
    TileMap.forEach f false tm = Some tm' /\
    TileMap.getRows tm' = TileMap.getRows tm /\
    TileMap.getCols tm' = TileMap.getCols tm /\
    (forall i j, (i < TileMap.getRows tm)%nat -> (j < TileMap.getCols tm)%nat ->
                 TileMap.getCell tm' i j = cleared_by f (TileMap.getCell tm i j) i j) /\
    (forall i j, ~ ((i < TileMap.getRows tm)%nat /\ (j < TileMap.getCols tm)%nat) ->
                 TileMap.getCell tm' i j = TileMap.getCell tm i j) /\
    ((forall v i j, f v i j = true) -> TileMap.getAll tm' = []).
Proof.
  intros S D. unfold TileMap.forEach.
  set (ijs := list_prod (seq 0 (TileMap.getRows tm)) (seq 0 (TileMap.getCols tm))).
  assert (I : forall i j, In (i, j) ijs <->
                          (i < TileMap.getRows tm)%nat /\ (j < TileMap.getCols tm)%nat).
  { intros i j. subst ijs. rewrite in_prod_iff, !in_seq. lia. }
  destruct (forEach_cells_clears f ijs tm) as (tm' & E & R & C & G).
  - subst ijs. apply NoDup_list_prod; apply seq_NoDup.
  - exact S.
  - intros i j H. apply I in H. now apply D.
  - exists tm'. split; [exact E|]. split; [exact R|]. split; [exact C|].
    split; [|split].
    + intros i j Hi Hj. rewrite G.
      destruct (in_dec pair_eq_dec (i, j) ijs) as [_|N]; [reflexivity|].
      exfalso. apply N, I. auto.
    + intros i j N. rewrite G.
      destruct (in_dec pair_eq_dec (i, j) ijs) as [H|_]; [|reflexivity].
      apply I in H. contradiction.
    + intros T. unfold TileMap.getAll. rewrite R, C.
      apply flat_map_nil_all. intros i Hi. apply flat_map_nil_all. intros j Hj.
      apply in_seq in Hi, Hj. rewrite read_getCell, G.
      destruct (in_dec pair_eq_dec (i, j) ijs) as [_|N].
      * specialize (D i j ltac:(lia) ltac:(lia)).
        destruct (TileMap.getCell tm i j); [contradiction|reflexivity|].
        simpl. now rewrite T.
      * exfalso. apply N, I. lia.
Qed.

Lemma forEach_clears_selected_witness :
  exists tm', TileMap.forEach (fun _ _ _ => true) false shelf = Some tm' /\
              TileMap.getAll tm' = [].
Proof.
  destruct (forEach_clears_selected (fun _ _ _ => true) shelf)
    as (tm' & E & _ & _ & _ & _ & A).
  - vm_compute. lia.
  - intros i j Hi Hj.
    assert (i = 0%nat) as -> by (vm_compute in Hi; lia).
    assert (j < 3)%nat as Hj' by (vm_compute in Hj; lia).
    destruct j as [|[|[|j]]]; [vm_compute; discriminate ..|lia].
  - exists tm'. split; [exact E|]. now apply A.
Defined.

(** ** moveOutside, whatever the overlap *)

Lemma moveOutsideX_moved (a : Actor.t) (solid : Box) :
  let r := Actor.moveOutsideX a solid in
  Actor.x (fst r) == Actor.x a + snd r /\ Actor.y (fst r) = Actor.y a /\
  Actor.width (fst r) = Actor.width a /\ Actor.height (fst r) = Actor.height a.
Proof.
  unfold Actor.moveOutsideX. split_ifs; simpl; fields; repeat split; try reflexivity; lra.
Qed.

Lemma moveOutsideY_moved (a : Actor.t) (solid : Box) :
  let r := Actor.moveOutsideY a solid in
  Actor.y (fst r) == Actor.y a + snd r /\ Actor.x (fst r) = Actor.x a /\
  Actor.width (fst r) = Actor.width a /\ Actor.height (fst r) = Actor.height a.
Proof.
  unfold Actor.moveOutsideY. split_ifs; simpl; fields; repeat split; try reflexivity; lra.
Qed.

Ltac fin :=
  try reflexivity; try lra; try (left; reflexivity); try (right; reflexivity);
  try (intros; congruence).

(** X16: [moveOutside] always leaves the Actor outside [solid], also when
    the two only touch.  It changes nothing but the position, the returned
    displacement is the change of position, at most one axis moves, and an
    Actor that does not overlap [solid] stays where it is. *)
Theorem moveOutside_displacement (a : Actor.t) (solid : Box) :
  let r := Actor.moveOutside a solid in
  Box.overlaps (fst r) solid = false /\
  only_box a (fst r) /\
  Actor.x (fst r) == Actor.x a + Actor.mx (snd r) /\
  Actor.y (fst r) == Actor.y a + Actor.my (snd r) /\
  Actor.width (fst r) = Actor.width a /\
  Actor.height (fst r) = Actor.height a /\
  (Actor.mx (snd r) == 0 \/ Actor.my (snd r) == 0) /\
  (Box.overlaps a solid = false -> r = (a, Actor.mkMoved 0 0)).
Proof.
  intros r. split; [|split; [apply moveOutside_only_box|]]; subst r.
  - unfold Actor.moveOutside.
    destruct (Box.overlaps a solid) eqn:O; destruct (Qle_bool _ _).
    + pose proof (moveOutsideX_gap a solid O) as G.
      destruct (Actor.moveOutsideX a solid) as [a1 dx]; simpl in G.
      rewrite (moveOutsideY_idle a1 solid (gapX_outside _ _ G)). simpl.
      now apply gapX_outside.
    + pose proof (moveOutsideY_gap a solid O) as G.
      destruct (Actor.moveOutsideY a solid) as [a1 dy]; simpl in G.
      rewrite (moveOutsideX_idle a1 solid (gapY_outside _ _ G)). simpl.
      now apply gapY_outside.
    + rewrite (moveOutsideX_idle a solid O), (moveOutsideY_idle a solid O). exact O.
    + rewrite (moveOutsideY_idle a solid O), (moveOutsideX_idle a solid O). exact O.
  - unfold Actor.moveOutside.
    destruct (Box.overlaps a solid) eqn:O; destruct (Qle_bool _ _).
    + pose proof (moveOutsideX_gap a solid O) as G.
      pose proof (moveOutsideX_moved a solid) as M.
      destruct (Actor.moveOutsideX a solid) as [a1 dx]; simpl in G, M.
      rewrite (moveOutsideY_idle a1 solid (gapX_outside _ _ G)). simpl.
      destruct M as (Mx & My & Mw & Mh). rewrite My, Mw, Mh.
      repeat split; fin.
    + pose proof (moveOutsideY_gap a solid O) as G.
      pose proof (moveOutsideY_moved a solid) as M.
      destruct (Actor.moveOutsideY a solid) as [a1 dy]; simpl in G, M.
      rewrite (moveOutsideX_idle a1 solid (gapY_outside _ _ G)). simpl.
      destruct M as (My & Mx & Mw & Mh). rewrite Mx, Mw, Mh.
      repeat split; fin.
    + rewrite (moveOutsideX_idle a solid O), (moveOutsideY_idle a solid O). simpl.
      repeat split; fin.
    + rewrite (moveOutsideY_idle a solid O), (moveOutsideX_idle a solid O). simpl.
      repeat split; fin.
Qed.

(** ** isMoveAllowed with and without fix *)

Lemma isMoveAllowedBox_answer (f : bool) (a : Actor.t) (m : Actor.moved) (c : Box) :
  let r := Actor.isMoveAllowedBox f a m c in
  fst (fst r) = fst (fst (Actor.isMoveAllowedBox false a m c)) /\
  (fst (fst r) = true -> r = (true, a, m)).
Proof.
  unfold Actor.isMoveAllowedBox. cbv zeta.
  destruct (_ && _ && _); [destruct f; simpl; (split; [reflexivity|discriminate])|].
  destruct (_ && _ && _); [destruct f; simpl; (split; [reflexivity|discriminate])|].
  simpl. auto.
Qed.

Lemma isMoveAllowedItems_answer (f : bool) (items : list value) (a : Actor.t)
    (m : Actor.moved) :
  let r := Actor.isMoveAllowedItems f a m items in
  fst (fst r) = fst (fst (Actor.isMoveAllowedItems false a m items)) /\
  (fst (fst r) = true -> r = (true, a, m)).
Proof.
  induction items as [|v tl IH]; simpl.
  - auto.
  - destruct v as [| |b]; try exact IH.
    destruct (isMoveAllowedBox_answer f a m b) as [E T].
    destruct (isMoveAllowedBox_no_fix a m b) as [ok N].
    rewrite N in E. rewrite N.
    destruct (Actor.isMoveAllowedBox f a m b) as [[ok1 a1] m1].
    simpl in E, T. subst ok1. destruct ok.
    + injection (T eq_refl) as -> ->. exact IH.
    + simpl. split; [reflexivity|discriminate].
Qed.

(** X17: the answer of [isMoveAllowed] does not depend on [fix], and when
    the answer is true the Actor and the [moved] object are as they were,
    with or without [fix], for a Box, a Collection or a TileMap. *)
Theorem isMoveAllowed_answer (m : Actor.moved) (o : Actor.obstacle) (f : bool)
    (a : Actor.t) :
  let r := Actor.isMoveAllowed m o f a in
  fst (fst r) = fst (fst (Actor.isMoveAllowed m o false a)) /\
  (fst (fst r) = true -> r = (true, a, m)).
Proof.
  destruct o; simpl.
  - apply isMoveAllowedBox_answer.
  - apply isMoveAllowedItems_answer.
  - apply isMoveAllowedItems_answer.
Qed.

Lemma half_eq (q : Q) : q / 2 == q * (1 # 2).
Proof. field. Qed.

Lemma sign_cases (d : Q) :
  (d <= 0 /\ Math_min d 0 = d /\ Math_max d 0 = 0 /\ Q_gt d 0 = false) \/
  (0 < d /\ Math_min d 0 = 0 /\ Math_max d 0 = d /\ Q_gt d 0 = true).
Proof.
  unfold Math_min, Math_max, Q_gt.
  destruct (Qle_bool_reflect d 0); [left|right]; repeat split; auto; lra.
Qed.

Lemma between_intro (p q v : Q) :
  (p <= v /\ v <= q) \/ (q <= v /\ v <= p) -> between p q v.
Proof. unfold between. intros H. qcases; lra. Qed.

Lemma Q_neq_true (a b : Q) : Q_neq a b = true -> ~ a == b.
Proof. unfold Q_neq. destruct (Qeq_bool_reflect a b); [discriminate|auto]. Qed.

(** The facts behind a refused move, read off the four comparisons. *)
Lemma crossing_facts (p q r s d e : Q) :
  Q_neq d 0 && (Q_ge p (Math_min d 0) && Qle_bool q (Math_max d 0)) &&
  (Qle_bool r (Math_min e 0) && Q_ge s (Math_max e 0)) = true ->
  ~ d == 0 /\ Math_min d 0 <= p /\ q <= Math_max d 0 /\
  r <= Math_min e 0 /\ Math_max e 0 <= s.
Proof.
  rewrite !andb_true_iff. unfold Q_ge. rewrite !Qle_bool_iff.
  intros [[N [A B]] [C D]]. apply Q_neq_true in N. auto.
Qed.

(** X18: when a move through a Box is refused and fixed, the Actor is put
    back on its way: on each axis its position lies between where it was
    before the move and where the move had brought it, and on the axis of
    the crossing it touches the Box from outside.  The sizes are not
    negative. *)
Theorem isMoveAllowed_fix_on_the_way (a a' : Actor.t) (m m' : Actor.moved) (c : Box) :
  0 <= Actor.width a -> 0 <= Actor.height a ->
  0 <= Box.width c -> 0 <= Box.height c ->
  Actor.isMoveAllowed m (Actor.OBox c) true a = (false, a', m') ->
  between (Actor.x a - Actor.mx m) (Actor.x a) (Actor.x a') /\
  between (Actor.y a - Actor.my m) (Actor.y a) (Actor.y a') /\
  (flushX a' c \/ flushY a' c) /\
  only_box a a'.
Proof.
  intros Hw Hh Hcw Hch E.
  assert (B : only_box a a').
  { pose proof (isMoveAllowedBox_only_box true a m c) as B. simpl in E.
    now rewrite E in B. }
  split; [|split; [|split; [|exact B]]]; clear B.
  all: simpl in E; unfold Actor.isMoveAllowedBox in E.
  all: destruct (Q_neq (Actor.mx m) 0 && _ && _) eqn:C1;
    [apply crossing_facts in C1 as (N & P1 & P2 & P3 & P4)
    |destruct (Q_neq (Actor.my m) 0 && _ && _) eqn:C2;
     [apply crossing_facts in C2 as (N & P1 & P2 & P3 & P4)|discriminate E]].
  all: injection E as <- <-.
  all: pose proof (half_eq (Actor.mx m)); pose proof (half_eq (Actor.my m)).
  all: destruct (sign_cases (Actor.mx m)) as [(S1 & E1 & E2 & E3)|(S1 & E1 & E2 & E3)];
    rewrite ?E1, ?E2, ?E3 in *;
    destruct (sign_cases (Actor.my m)) as [(S2 & E4 & E5 & E6)|(S2 & E4 & E5 & E6)];
    rewrite ?E4, ?E5, ?E6 in *.
  all: unfold flushX, flushY; fields;
    try (apply between_intro; lra);
    try (left; left; lra); try (left; right; lra);
    try (right; left; lra); try (right; right; lra).
Qed.

Lemma isMoveAllowed_fix_on_the_way_witness :
  let r := Actor.isMoveAllowed (Actor.mkMoved 110 0) (Actor.OBox solid_at_5) true
                               passed_through in
  between (100 - 110) 100 (Actor.x (snd (fst r))) /\
  between (0 - 0) 0 (Actor.y (snd (fst r))) /\
  (flushX (snd (fst r)) solid_at_5 \/ flushY (snd (fst r)) solid_at_5) /\
  only_box passed_through (snd (fst r)).
Proof.
  intros r.
  apply (isMoveAllowed_fix_on_the_way passed_through (snd (fst r))
           (Actor.mkMoved 110 0) (snd r) solid_at_5);
    try (vm_compute; discriminate).
  reflexivity.
Defined.

(** ** update while the Actor is dragged *)

(** X19: while the Actor is dragged, [update] ignores the keys and gravity:
    it changes nothing but the position, puts the centre of the Actor on
    the pointer (in world coordinates) and returns the change of position. *)
Theorem update_dragged (env : Env) (now : Z) (d : option (list string)) (a : Actor.t) :
  Actor.isBeingDragged a = true ->
  let r := Actor.update env now d a in
  only_box a (fst r) /\
  Box.xC (fst r) == mouse_x env + xOffset (world env) /\
  Box.yC (fst r) == mouse_y env + yOffset (world env) /\
  Actor.width (fst r) = Actor.width a /\
  Actor.height (fst r) = Actor.height a /\
  Actor.x (fst r) == Actor.x a + Actor.mx (snd r) /\
  Actor.y (fst r) == Actor.y a + Actor.my (snd r).
Proof.
  intros D. unfold Actor.update. rewrite D. simpl.
  split.
  - eapply only_box_trans; [apply only_box_set_x|apply only_box_set_y].
  - unfold Box.xC, Box.yC.
    pose proof (half_eq (Actor.width a)). pose proof (half_eq (Actor.height a)).
    fields. repeat split; try reflexivity; lra.
Qed.

Lemma update_dragged_witness :
  Box.xC (fst (Actor.update env0 0 None (Actor.set_isBeingDragged hopper true))) ==
  mouse_x env0 + xOffset (world env0).
Proof.
  refine (proj1 (proj2 (update_dragged env0 0%Z None
                          (Actor.set_isBeingDragged hopper true) _))).
  reflexivity.
Defined.

(** ** The viewport of a Player *)

Lemma adjustAxis_follows (moveworld o c canvas size d : Q) :
  let r := Player.adjustAxis moveworld o c canvas size d in
  between 0 d (fst r - o) /\ snd r == o - fst r.
Proof.
  unfold Player.adjustAxis, between.
  qcases; repeat split; lra.
Qed.

(** X20: [adjustViewport] makes the viewport follow the Player: on each
    axis the offset changes by an amount between 0 and the displacement of
    the Player, never more and never the other way; [changed] is the old
    offset minus the new one, the size of the world stays, and nothing
    changes while the mouse scrolls the viewport. *)
Theorem adjustViewport_follows (env : Env) (scrolling : bool) (moveworld : Q)
    (a : Actor.t) (m : Actor.moved) :
  let r := Player.adjustViewport env scrolling moveworld a m in
  between 0 (Actor.mx m) (xOffset (fst r) - xOffset (world env)) /\
  between 0 (Actor.my m) (yOffset (fst r) - yOffset (world env)) /\
  Actor.mx (snd r) == xOffset (world env) - xOffset (fst r) /\
  Actor.my (snd r) == yOffset (world env) - yOffset (fst r) /\
  world_width (fst r) = world_width (world env) /\
  world_height (fst r) = world_height (world env) /\
  (scrolling = true -> r = (world env, Actor.mkMoved 0 0)).
Proof.
  unfold Player.adjustViewport, WorldMethods.getOffsets.
  destruct scrolling; simpl.
  - repeat split; try reflexivity; unfold between; qcases; lra.
  - pose proof (adjustAxis_follows moveworld (xOffset (world env))
                  (Actor.x a + Actor.width a / 2) (canvas_width env)
                  (world_width (world env)) (Actor.mx m)) as [X1 X2].
    pose proof (adjustAxis_follows moveworld (yOffset (world env))
                  (Actor.y a + Actor.height a / 2) (canvas_height env)
                  (world_height (world env)) (Actor.my m)) as [Y1 Y2].
    destruct (Player.adjustAxis moveworld (xOffset (world env)) _ _ _ _) as [ox cx].
    destruct (Player.adjustAxis moveworld (yOffset (world env)) _ _ _ _) as [oy cy].
    simpl in *. repeat split; auto; try apply X1; try apply Y1; discriminate.
Qed.

(** ** Staying in the world *)

Lemma isInWorld_iff (w : World) (b : Box) :
  WorldMethods.isInWorld w b false = true <->
  0 <= Box.x b /\ Box.x b + Box.width b <= world_width w /\
  0 <= Box.y b /\ Box.y b + Box.height b <= world_height w.
Proof.
  unfold WorldMethods.isInWorld, Q_ge. rewrite !andb_true_iff, !Qle_bool_iff. tauto.
Qed.

Lemma air_step (m c : Q) : 0 <= m -> 0 <= c -> c <= 1 -> 0 <= m * c /\ m * c <= m.
Proof. intros. split; nra. Qed.

Lemma move_horizontal_inside env k d (a : Actor.t) :
  Actor.STAY_IN_WORLD a = true ->
  0 <= Actor.moveAmount env a ->
  0 <= Actor.AIR_CONTROL a -> Actor.AIR_CONTROL a <= 1 ->
  WorldMethods.isInWorld (world env) a false = true ->
  WorldMethods.isInWorld (world env)
    (fst (fst (fst (Actor.move_horizontal env k d a)))) false = true.
Proof.
  intros S M C0 C1. rewrite !isInWorld_iff. intros I.
  destruct (air_step _ _ M C0 C1) as [A0 A1].
  unfold Actor.move_horizontal. rewrite S. simpl negb. rewrite !orb_false_r.
  set (m := Actor.moveAmount env a) in *.
  qcases; rewrite ?andb_false_r, ?andb_true_r; split_ifs; simpl; fields; lra.
Qed.

Lemma jump_box now l r a : Actor.box (Actor.jump now l r a) = Actor.box a.
Proof. reflexivity. Qed.

Lemma move_vertical_inside env k d now l r (a : Actor.t) :
  Actor.STAY_IN_WORLD a = true ->
  0 <= Actor.moveAmount env a ->
  WorldMethods.isInWorld (world env) a false = true ->
  WorldMethods.isInWorld (world env)
    (fst (fst (Actor.move_vertical env k d now l r a))) false = true.
Proof.
  intros S M. rewrite !isInWorld_iff. intros I.
  unfold Actor.move_vertical. rewrite S. simpl negb. rewrite !orb_false_r.
  set (m := Actor.moveAmount env a) in *.
  qcases; rewrite ?andb_false_r, ?andb_true_r; split_ifs; simpl; fields; lra.
Qed.

Lemma look_box k d a : Actor.box (Actor.look k d a) = Actor.box a.
Proof. unfold Actor.look. now destruct (Actor.GRAVITY a). Qed.

Lemma move_inside env now d (a : Actor.t) :
  Actor.STAY_IN_WORLD a = true ->
  0 <= Actor.moveAmount env a ->
  0 <= Actor.AIR_CONTROL a -> Actor.AIR_CONTROL a <= 1 ->
  WorldMethods.isInWorld (world env) a false = true ->
  WorldMethods.isInWorld (world env) (fst (Actor.move env now d a)) false = true.
Proof.
  intros S M C0 C1 I. unfold Actor.move.
  destruct (keys env) as [k|]; [|exact I].
  destruct (Actor.chosen_direction d a) as [dir|]; [|exact I].
  set (a0 := Actor.set_lastDirection a dir).
  pose proof (move_horizontal_inside env k dir a0 S M C0 C1 I) as H.
  pose proof (move_horizontal_keeps env k dir a0) as (_ & Hc & _).
  destruct (Actor.move_horizontal env k dir a0) as [[[a1 dx] l] r]. simpl in H, Hc.
  assert (S1 : Actor.STAY_IN_WORLD a1 = true) by now rewrite Hc.
  assert (M1 : 0 <= Actor.moveAmount env a1)
    by (unfold Actor.moveAmount in *; now rewrite Hc).
  pose proof (move_vertical_inside env k dir now l r a1 S1 M1 H) as V.
  destruct (Actor.move_vertical env k dir now l r a1) as [[a2 dy] lk]. simpl in V.
  destruct (l || r || lk); simpl; [now rewrite look_box|exact V].
Qed.

(** X21: an Actor that has to stay in the world and lies in it is still in
    it after [move], whatever the keys: every step is checked against the
    edge it goes to.  The step per frame is not negative and the share of
    it used in the air is between 0 and 1. *)
Theorem move_stays_in_world env now d (a : Actor.t) :
  Actor.STAY_IN_WORLD a = true ->
  0 <= Actor.moveAmount env a ->
  0 <= Actor.AIR_CONTROL a -> Actor.AIR_CONTROL a <= 1 ->
  WorldMethods.isInWorld (world env) a false = true ->
  WorldMethods.isInWorld (world env) (fst (Actor.move env now d a)) false = true.
Proof. exact (move_inside env now d a). Qed.

Lemma move_stays_in_world_witness :
  WorldMethods.isInWorld (world env0)
    (fst (Actor.move env0 1000 (Some ["left"%string; "down"%string]) hopper)) false = true.
Proof.
  apply (move_stays_in_world env0 1000%Z (Some ["left"%string; "down"%string]) hopper);
    vm_compute; congruence.
Defined.

Lemma stopFalling_sides env (a : Actor.t) :
  within_sides env a -> within_sides env (Actor.stopFalling env a).
Proof.
  unfold within_sides, Actor.stopFalling.
  split_ifs; simpl; fields; lra.
Qed.

Lemma move_cfg env now d a : Actor.cfg (fst (Actor.move env now d a)) = Actor.cfg a.
Proof. apply move_jump_state. Qed.

Lemma applyGravity_sides env (a : Actor.t) m :
  Actor.STAY_IN_WORLD a = true ->
  0 <= Actor.moveAmount env a ->
  within_sides env a -> within_sides env (fst (Actor.applyGravity env a m)).
Proof.
  intros S M I. unfold Actor.applyGravity.
  set (a1 := Actor.set_speed a _).
  assert (I1 : within_sides env a1) by exact I.
  change (Actor.STAY_IN_WORLD a1) with (Actor.STAY_IN_WORLD a). rewrite S.
  simpl negb. rewrite !orb_false_r.
  change (Actor.isInAir a1) with (Actor.inAir a).
  destruct (Actor.inAir a && Qle_bool _ _) eqn:C.
  - apply andb_true_iff in C as [_ C]. apply Qle_bool_iff in C.
    unfold within_sides in *. subst a1.
    set (amount := Actor.moveAmount env a) in *.
    fields. rewrite ?S. simpl negb. rewrite ?orb_false_r.
    qcases; rewrite ?andb_false_r, ?andb_true_r; split_ifs; simpl; fields; lra.
  - pose proof (stopFalling_sides env a1 I1) as H.
    destruct (Qeq_bool _ 0); exact H.
Qed.

(** X22: an Actor that has to stay in the world and lies in it does not
    leave it through the left, right or bottom side in [update], unless it
    is dragged; the top side is not checked when the Actor rises. *)
Theorem update_stays_in_world env now d (a : Actor.t) :
  Actor.isBeingDragged a = false ->
  Actor.STAY_IN_WORLD a = true ->
  0 <= Actor.moveAmount env a ->
  0 <= Actor.AIR_CONTROL a -> Actor.AIR_CONTROL a <= 1 ->
  WorldMethods.isInWorld (world env) a false = true ->
  within_sides env (fst (Actor.update env now d a)).
Proof.
  intros D S M C0 C1 I. unfold Actor.update. rewrite D.
  pose proof (move_inside env now d a S M C0 C1 I) as H.
  pose proof (move_cfg env now d a) as Hc.
  destruct (Actor.move env now d a) as [a1 m]. simpl in H, Hc.
  apply isInWorld_iff in H.
  assert (W : within_sides env a1) by (unfold within_sides; tauto).
  destruct (Actor.GRAVITY a1); [|exact W].
  apply applyGravity_sides; [now rewrite Hc| |exact W].
  unfold Actor.moveAmount in *. now rewrite Hc.
Qed.

Lemma update_stays_in_world_witness :
  within_sides env0 (fst (Actor.update env0 1000 (Some ["right"%string]) hopper)).
Proof.
  apply (update_stays_in_world env0 1000%Z (Some ["right"%string]) hopper);
    vm_compute; congruence.
Defined.

(** The top side: a rising Actor leaves the world through it. *)
Lemma update_leaves_through_top :
  WorldMethods.isInWorld (world env0) rising_at_top false = true /\
  Actor.y (fst (Actor.update env0 1000 None rising_at_top)) < 0.
Proof. vm_compute. split; reflexivity. Qed.

(** ** The jump state in every reachable state *)

Lemma ok_frame (a a' : Actor.t) :
  Actor.cfg a' = Actor.cfg a ->
  Actor.numJumps a' = Actor.numJumps a ->
  Actor.inAir a' = Actor.inAir a ->
  Actor.jumpDirection a' = Actor.jumpDirection a \/
  Actor.jumpDirection a' = Actor.mkJumpDir false false ->
  jump_state_ok a -> jump_state_ok a'.
Proof.
  unfold jump_state_ok. intros -> -> -> [-> | ->]; simpl; tauto.
Qed.

Lemma ok_only_box a a' : only_box a a' -> jump_state_ok a -> jump_state_ok a'.
Proof. unfold only_box. intros ->. exact (fun H => H). Qed.

Lemma ok_fresh c b : jump_state_ok (Actor.fresh c b).
Proof. unfold jump_state_ok. simpl. repeat split; lia. Qed.

Lemma ok_move_horizontal env k d a :
  let r := Actor.move_horizontal env k d a in
  (jump_state_ok a -> jump_state_ok (fst (fst (fst r)))) /\
  snd (fst r) && snd r = false.
Proof.
  unfold Actor.move_horizontal.
  split_ifs; simpl; (split; [|reflexivity]);
    intros H; (eapply ok_frame; [| | | |exact H]); simpl; auto.
Qed.

Lemma canJump_bound (a : Actor.t) :
  jump_state_ok a -> Actor.canJump a = true ->
  Actor.MULTI_JUMP a <> (-1)%Z ->
  (Actor.numJumps a + 1 <= Z.max 1 (Actor.MULTI_JUMP a))%Z.
Proof.
  unfold jump_state_ok, Actor.canJump, Actor.isInAir.
  intros (P & G & B & _) C N.
  apply orb_true_iff in C as [C|C]; [apply orb_true_iff in C as [C|C]|].
  - apply negb_true_iff in C. rewrite (G C). lia.
  - apply Z.gtb_lt in C. lia.
  - apply Z.eqb_eq in C. contradiction.
Qed.

Lemma ok_jump now l r (a : Actor.t) :
  l && r = false -> jump_state_ok a -> Actor.canJump a = true ->
  jump_state_ok (Actor.set_jumpKeyDown (Actor.jump now l r a) true).
Proof.
  intros LR H C. pose proof (canJump_bound a H C) as B.
  destruct H as (P & _). unfold jump_state_ok. simpl.
  repeat split; [lia|discriminate|exact B|exact LR].
Qed.

Lemma ok_move_vertical env k d now l r (a : Actor.t) :
  l && r = false -> jump_state_ok a ->
  jump_state_ok (fst (fst (Actor.move_vertical env k d now l r a))).
Proof.
  intros LR H. unfold Actor.move_vertical.
  destruct (anyIn env (Keys.up k) d && _).
  - destruct (negb (Actor.GRAVITY a)); [exact H|].
    destruct (Actor.canJump a) eqn:C; [|exact H].
    destruct (Actor.jumpReady now a); [|exact H].
    now apply ok_jump.
  - split_ifs; exact H.
Qed.

Lemma ok_look k d a : jump_state_ok a -> jump_state_ok (Actor.look k d a).
Proof. unfold Actor.look. destruct (Actor.GRAVITY a); exact (fun H => H). Qed.

Lemma ok_move env now d a :
  jump_state_ok a -> jump_state_ok (fst (Actor.move env now d a)).
Proof.
  intros H. unfold Actor.move.
  destruct (keys env) as [k|]; [|exact H].
  destruct (Actor.chosen_direction d a) as [dir|]; [|exact H].
  pose proof (ok_move_horizontal env k dir (Actor.set_lastDirection a dir)) as [H1 LR].
  destruct (Actor.move_horizontal env k dir _) as [[[a1 dx] l] r]. simpl in H1, LR.
  pose proof (ok_move_vertical env k dir now l r a1 LR (H1 H)) as H2.
  destruct (Actor.move_vertical env k dir now l r a1) as [[a2 dy] lk]. simpl in H2.
  destruct (l || r || lk); simpl; [now apply ok_look|exact H2].
Qed.

Lemma ok_stopFalling env a : jump_state_ok a -> jump_state_ok (Actor.stopFalling env a).
Proof.
  unfold jump_state_ok, Actor.stopFalling. intros (_ & _ & _ & D).
  split_ifs; simpl; repeat split; auto; lia.
Qed.

Lemma ok_startFalling a : jump_state_ok a -> jump_state_ok (Actor.startFalling a).
Proof.
  unfold jump_state_ok, Actor.startFalling. intros (P & G & B & D).
  destruct (Actor.fallLeft a) as [fl|]; [destruct (negb (Actor.inAir a))|]; simpl;
    repeat split; auto; try discriminate.
  now destruct fl.
Qed.

Lemma ok_release env r a : jump_state_ok a -> jump_state_ok (Actor.release env r a).
Proof.
  unfold Actor.release. destruct (keys env); [|auto].
  destruct (_ && _); auto.
Qed.

Lemma ok_set_x a v : jump_state_ok a -> jump_state_ok (Actor.set_x a v).
Proof. exact (fun H => H). Qed.

Lemma ok_set_y a v : jump_state_ok a -> jump_state_ok (Actor.set_y a v).
Proof. exact (fun H => H). Qed.

Lemma ok_set_speed a v : jump_state_ok a -> jump_state_ok (Actor.set_speed a v).
Proof. exact (fun H => H). Qed.

Lemma ok_set_fallLeft a v : jump_state_ok a -> jump_state_ok (Actor.set_fallLeft a v).
Proof. exact (fun H => H). Qed.

Lemma ok_applyGravity env a m :
  jump_state_ok a -> jump_state_ok (fst (Actor.applyGravity env a m)).
Proof.
  intros H. unfold Actor.applyGravity.
  set (a1 := Actor.set_speed a _).
  assert (H1 : jump_state_ok a1) by (apply ok_set_speed; exact H).
  clearbody a1.
  destruct (Actor.isInAir a1 && _).
  - set (a2 := Actor.set_y a1 _).
    assert (H2 : jump_state_ok a2) by (apply ok_set_y; exact H1).
    clearbody a2.
    destruct (Actor.jd_left _ && _); [|destruct (Actor.jd_right _ && _)];
      cbv beta iota zeta; cbn [fst];
      destruct (Qeq_bool _ 0); auto using ok_set_x, ok_set_fallLeft.
  - cbv beta iota zeta; cbn [fst].
    destruct (Qeq_bool _ 0); auto using ok_stopFalling, ok_set_fallLeft.
Qed.

Lemma ok_update env now d a :
  jump_state_ok a -> jump_state_ok (fst (Actor.update env now d a)).
Proof.
  intros H. unfold Actor.update.
  destruct (Actor.isBeingDragged a); [exact H|].
  pose proof (ok_move env now d a H) as H1.
  destruct (Actor.move env now d a) as [a1 m]. simpl in H1.
  destruct (Actor.GRAVITY a1); [now apply ok_applyGravity|exact H1].
Qed.

Lemma ok_stopMomentum env a b :
  jump_state_ok a -> jump_state_ok (Actor.stopMomentum env a b).
Proof.
  unfold Actor.stopMomentum, jump_state_ok. intros (P & G & B & D).
  split_ifs; simpl; auto.
Qed.

Lemma ok_checkStanding env m a b :
  jump_state_ok a -> jump_state_ok (fst (Actor.checkStanding env m a b)).
Proof.
  intros H. unfold Actor.checkStanding.
  destruct (Actor.standingOn env _ b); cbv beta iota zeta; cbn [fst].
  - apply (ok_only_box (Actor.stopFalling env (Actor.set_x a (Actor.x a - Actor.mx m))));
      [apply only_box_set_x|].
    apply ok_stopFalling. exact H.
  - exact H.
Qed.

Lemma ok__collideSolidBox env m a b :
  jump_state_ok a -> jump_state_ok (fst (Actor._collideSolidBox env m a b)).
Proof.
  intros H. unfold Actor._collideSolidBox.
  pose proof (backOut_only_box a b) as B.
  destruct (Actor.backOut a b) as [a1 c1]. simpl in B.
  pose proof (ok_only_box _ _ B H) as H1.
  destruct (Actor.GRAVITY a1); [|exact H1].
  pose proof (ok_checkStanding env m a1 b H1) as H2.
  destruct (Actor.checkStanding env m a1 b) as [a2 f2]. simpl in *.
  destruct (f2 && c1); [now apply ok_stopMomentum|exact H2].
Qed.

Lemma ok_collideItems env m items : forall a f c a' f' c',
  Actor.collideItems env m items a f c = Some (a', f', c') ->
  jump_state_ok a -> jump_state_ok a'.
Proof.
  induction items as [|v tl IH]; simpl; intros a f c a' f' c' E H.
  - now inversion E; subst.
  - destruct v as [| |b]; try discriminate.
    pose proof (ok__collideSolidBox env m a b H) as H1.
    destruct (Actor._collideSolidBox env m a b) as [a1 r]. eauto.
Qed.

Lemma ok_collideSolid env m o a a' c :
  Actor.collideSolid env m o a = Some (a', c) ->
  jump_state_ok a -> jump_state_ok a'.
Proof.
  unfold Actor.collideSolid. intros E H.
  assert (F : forall (f : bool) a1, jump_state_ok a1 ->
                jump_state_ok (if f then Actor.startFalling a1 else a1)).
  { intros [|] a1 H1; [now apply ok_startFalling|exact H1]. }
  destruct o as [b|cl|tm].
  - pose proof (ok__collideSolidBox env m a b H) as H1.
    destruct (Actor._collideSolidBox env m a b) as [a1 r].
    inversion E; subst. now apply F.
  - destruct (Actor.collideItems env m _ a _ false) as [[[a1 f1] c1]|] eqn:E1;
      [|discriminate].
    inversion E; subst. eauto using ok_collideItems.
  - destruct (Actor.collideItems env m _ a _ false) as [[[a1 f1] c1]|] eqn:E1;
      [|discriminate].
    inversion E; subst. eauto using ok_collideItems.
Qed.

Lemma reachable_ok (a : Actor.t) : reachable a -> jump_state_ok a.
Proof.
  induction 1 as [env c ox oy ow oh|a a' R IH S].
  - apply ok_fresh.
  - destruct S;
      eauto using ok_move, ok_update, ok_startFalling, ok_stopFalling,
        ok_collideSolid, ok_release, ok_only_box, moveOutside_only_box,
        isMoveAllowed_only_box.
Qed.

(** X23: in every reachable state the jump count is not negative and,
    unless [MULTI_JUMP] is -1 (no limit), it is at most [MULTI_JUMP], or 1
    when [MULTI_JUMP] is smaller: the jump from the ground always counts. *)
Theorem jump_count_bounded (a : Actor.t) :
  reachable a ->
  (0 <= Actor.numJumps a)%Z /\
  (Actor.MULTI_JUMP a <> (-1)%Z ->
   (Actor.numJumps a <= Z.max 1 (Actor.MULTI_JUMP a))%Z).
Proof. intros R. destruct (reachable_ok a R) as (P & _ & B & _). auto. Qed.

Lemma reachable_first_jump : reachable first_jump.
Proof.
  unfold first_jump. eapply reach_step; [|apply step_move].
  change grounded with
    (Actor.init env0 one_multi_jump (Some 100) (Some 500) (Some 10) (Some 10)).
  apply reach_init.
Qed.

Lemma jump_count_bounded_witness : (0 <= Actor.numJumps first_jump)%Z.
Proof.
  exact (proj1 (jump_count_bounded first_jump reachable_first_jump)).
Defined.

(** X24: in every reachable state an Actor is in the air exactly when it
    is jumping or falling, and it is never both. *)
Theorem air_is_jumping_or_falling (a : Actor.t) :
  reachable a ->
  Actor.isInAir a = Actor.isJumping a || Actor.isFalling a /\
  Actor.isJumping a && Actor.isFalling a = false.
Proof.
  intros R. destruct (reachable_ok a R) as (P & G & _ & _).
  unfold Actor.isJumping, Actor.isFalling, Actor.isInAir.
  destruct (Actor.inAir a); simpl.
  - destruct (Z.gtb_spec (Actor.numJumps a) 0), (Z.eqb_spec (Actor.numJumps a) 0);
      simpl; split; auto; lia.
  - rewrite (G eq_refl). split; reflexivity.
Qed.

Lemma air_is_jumping_or_falling_witness :
  Actor.isInAir first_jump = Actor.isJumping first_jump || Actor.isFalling first_jump.
Proof.
  exact (proj1 (air_is_jumping_or_falling first_jump reachable_first_jump)).
Defined.

(** X25: in no reachable state does the momentum of a jump or fall point
    both left and right. *)
Theorem jumpDirection_one_way (a : Actor.t) :
  reachable a ->
  Actor.jd_left (Actor.jumpDirection a) && Actor.jd_right (Actor.jumpDirection a) = false.
Proof. intros R. now destruct (reachable_ok a R) as (_ & _ & _ & D). Qed.

Lemma jumpDirection_one_way_witness :
  Actor.jd_left (Actor.jumpDirection first_jump) &&
  Actor.jd_right (Actor.jumpDirection first_jump) = false.
Proof.
  exact (jumpDirection_one_way first_jump reachable_first_jump).
Defined.

(** ** Holding the jump key *)

Lemma same_jump_state_refl a : same_jump_state a a.
Proof. unfold same_jump_state. auto. Qed.

Lemma same_jump_state_trans a b c :
  same_jump_state a b -> same_jump_state b c -> same_jump_state a c.
Proof. unfold same_jump_state. intuition congruence. Qed.

Lemma move_vertical_keyDown env k d now l r a :
  Actor.jumpKeyDown a = true ->
  Actor.jumpKeyDown (fst (fst (Actor.move_vertical env k d now l r a))) = true.
Proof.
  intros K. unfold Actor.move_vertical. split_ifs; simpl; auto.
Qed.

Lemma move_keyDown env now d a :
  Actor.jumpKeyDown a = true ->
  Actor.jumpKeyDown (fst (Actor.move env now d a)) = true.
Proof.
  intros K. unfold Actor.move.
  destruct (keys env) as [k|]; [|exact K].
  destruct (Actor.chosen_direction d a) as [dir|]; [|exact K].
  pose proof (move_horizontal_keeps env k dir (Actor.set_lastDirection a dir))
    as (_ & _ & Hk & _).
  destruct (Actor.move_horizontal env k dir _) as [[[a1 dx] l] r]. simpl in Hk.
  assert (K1 : Actor.jumpKeyDown a1 = true) by (rewrite Hk; exact K).
  pose proof (move_vertical_keyDown env k dir now l r a1 K1) as V.
  destruct (Actor.move_vertical env k dir now l r a1) as [[a2 dy] lk]. simpl in V.
  destruct (l || r || lk); simpl; [|exact V].
  destruct (look_keeps k dir a2) as (_ & _ & Lk). now rewrite Lk.
Qed.

Lemma held_key_no_jump env now d (a : Actor.t) :
  Actor.JUMP_RELEASE a = true -> Actor.jumpKeyDown a = true ->
  jumps env now d a = false.
Proof.
  intros R K. unfold jumps, Actor.jumpReady. rewrite R, K. simpl.
  destruct (keys env); [|reflexivity].
  destruct (Actor.chosen_direction d a); [|reflexivity].
  now rewrite !andb_false_r.
Qed.

Lemma moves_held attempts : forall a : Actor.t,
  Actor.JUMP_RELEASE a = true -> Actor.jumpKeyDown a = true ->
  same_jump_state a (moves attempts a) /\
  Actor.jumpKeyDown (moves attempts a) = true.
Proof.
  induction attempts as [|[[env now] d] tl IH]; intros a R K; simpl.
  - split; [apply same_jump_state_refl|exact K].
  - destruct (move_jump_state env now d a) as [Hc H].
    rewrite (held_key_no_jump env now d a R K) in H.
    pose proof (move_keyDown env now d a K) as K1.
    destruct (IH (fst (Actor.move env now d a))) as [S1 K2]; [now rewrite Hc|exact K1|].
    split; [|exact K2]. eapply same_jump_state_trans; eassumption.
Qed.

(** X26: an Actor that needs the jump key released between jumps does not
    jump while the key is held: after any run of calls to [move], whatever
    the keys and the time, its vertical speed, last jump time, jump count
    and air flag are as before, and the key still counts as held. *)
Theorem held_jump_key_never_jumps
    (attempts : list (Env * Z * option (list string))) (a : Actor.t) :
  Actor.JUMP_RELEASE a = true -> Actor.jumpKeyDown a = true ->
  same_jump_state a (moves attempts a) /\
  Actor.jumpKeyDown (moves attempts a) = true.
Proof. exact (moves_held attempts a). Qed.

Lemma held_jump_key_never_jumps_witness :
  Actor.numJumps
    (moves [(env0, 2000%Z, Some ["up"%string]); (env0, 3000%Z, Some ["up"%string])]
           jumped_holding) = Actor.numJumps jumped_holding.
Proof.
  refine (proj1 (proj2 (proj2 (proj1
    (held_jump_key_never_jumps
       [(env0, 2000%Z, Some ["up"%string]); (env0, 3000%Z, Some ["up"%string])]
       jumped_holding _ _))))); reflexivity.
Defined.

(** ** collideSolid and collides *)










